(** * multimodal_edu: discovery and ingestion pipeline

    A shallow embedding of [app/discover_resources.py] and
    [app/ingestion.py], and the properties of the discovery-to-ingestion
    pipeline checked against it.

    Layout: [Py] holds the fragment of Python the two scripts rely on
    (strings, JSON values, exceptions); [Discover] embeds the crawler and
    the playlist chain; [Ingest] embeds the ingestion loop; [Fixtures]
    holds concrete sites, providers and manifests; the remaining modules
    hold the theorems. *)

From Stdlib Require Import Ascii.
From stdpp Require Import gmap strings list pretty.

Local Open Scope string_scope.
Local Open Scope nat_scope.
Local Open Scope list_scope.

(** ** The Python fragment *)
Module Py.

(** *** Strings

    A Python [str] is modelled by the [string] of the bytes of its UTF-8
    encoding. Searching, splitting and the tests on prefixes and
    suffixes give on the bytes what Python gives on the characters.
    Lowering does not: it is the byte map [lower] on ASCII text, and
    [str_lower] takes what the interpreter does on other text as a
    parameter. *)

Definition ascii_lower (c : Ascii.ascii) : Ascii.ascii :=
  let n := Ascii.nat_of_ascii c in
  if (65 <=? n)%nat && (n <=? 90)%nat then Ascii.ascii_of_nat (n + 32) else c.

(** The ASCII case folding: A to Z become a to z, every other byte is
    kept. *)
Fixpoint lower (s : string) : string :=
  match s with
  | EmptyString => EmptyString
  | String c s' => String (ascii_lower c) (lower s')
  end.

(** The text is ASCII: every byte of it is below 128. *)
Fixpoint is_ascii (s : string) : bool :=
  match s with
  | EmptyString => true
  | String c s' => (Ascii.nat_of_ascii c <? 128) && is_ascii s'
  end.

(** [s.lower()]. On ASCII text it is the ASCII case folding. On other
    text the interpreter lowers by the case mappings of its Unicode
    character database, which is no part of the program: that function
    is the parameter [unicode_lower]. *)
Definition str_lower (unicode_lower : string → string) (s : string) : string :=
  if is_ascii s then lower s else unicode_lower s.

(** [s.startswith(p)] *)
Definition startswith (s p : string) : bool := String.prefix p s.

(** [s.endswith(p)] *)
Definition endswith (s p : string) : bool :=
  String.prefix (String.rev p) (String.rev s).

(** [needle in hay] on two [str] values *)
Fixpoint contains (needle hay : string) : bool :=
  if String.prefix needle hay then true
  else match hay with
       | EmptyString => false
       | String _ hay' => contains needle hay'
       end.

(** [s.lstrip(chars)] for a one-character [chars] *)
Fixpoint lstrip (c : Ascii.ascii) (s : string) : string :=
  match s with
  | String c' s' => if decide (c' = c) then lstrip c s' else s
  | EmptyString => EmptyString
  end.

(** [s.split(sep)]: the pieces between the non-overlapping occurrences
    of [sep], scanning from the left. [skip] counts the characters of an
    occurrence of [sep] still to be passed over, [cur] is the piece
    being read. [sep] is non-empty. *)
Fixpoint split_go (sep : string) (skip : nat) (cur : string) (s : string)
  : list string :=
  match s with
  | EmptyString => [cur]
  | String c s' =>
      match skip with
      | S k => split_go sep k cur s'
      | O =>
          if String.prefix sep s
          then cur :: split_go sep (String.length sep - 1) EmptyString s'
          else split_go sep 0 (cur +:+ String c EmptyString) s'
      end
  end.

Definition split (s sep : string) : list string := split_go sep 0 "" s.

(** [xs[-1]] on a non-empty list of strings *)
Definition last_piece (xs : list string) : string := default "" (last xs).

(** [os.path.splitext(p)[-1]]: the text from the last dot of the last
    path component on, provided some character other than a dot comes
    before that dot in the component; the empty string otherwise. *)
Fixpoint ext_go (seen_name : bool) (ext : option string) (s : string)
  : string :=
  match s with
  | EmptyString => default "" ext
  | String c s' =>
      if decide (c = "/"%char) then ext_go false None s'
      else if decide (c = "."%char) then
             if seen_name then ext_go true (Some (String c EmptyString)) s'
             else ext_go false None s'
      else ext_go true ((λ e, e +:+ String c EmptyString) <$> ext) s'
  end.

Definition splitext_ext (p : string) : string := ext_go false None p.

(** *** JSON values, as [json.loads] builds them and [json.dumps] takes
    them. A float is kept as its 64-bit pattern. *)
Local Unset Elimination Schemes.
Inductive value : Type :=
| VNone
| VBool (b : bool)
| VInt (n : Z)
| VFloat (bits : Z)
| VStr (s : string)
| VList (l : list value)
| VDict (d : gmap string value).
Local Set Elimination Schemes.

(** [type(v).__name__] *)
Definition type_name (v : value) : string :=
  match v with
  | VNone => "NoneType"
  | VBool _ => "bool"
  | VInt _ => "int"
  | VFloat _ => "float"
  | VStr _ => "str"
  | VList _ => "list"
  | VDict _ => "dict"
  end.

(** [v == s] for a string literal [s] *)
Definition eq_str (v : value) (s : string) : bool :=
  match v with
  | VStr s' => bool_decide (s' = s)
  | _ => false
  end.

(** Truth value of a [str] *)
Definition truthy_str (s : string) : bool := negb (bool_decide (s = "")).

(** Truth value of an optional [str] ([None] is false) *)
Definition truthy_opt (o : option string) : bool :=
  match o with
  | Some s => truthy_str s
  | None => false
  end.

(** *** Exceptions

    An instance of Python's [Exception] class: its class name and the
    text [str(e)] gives. Interpreter signals that do not derive from
    [Exception] (KeyboardInterrupt, SystemExit) end the process and are
    outside the embedding, and so is the interpreter's recursion limit. *)
Record Exception : Type := mkException {
  exc_class : string;
  exc_str : string
}.

Definition KeyError (key : string) : Exception :=
  mkException "KeyError" ("'" +:+ key +:+ "'").

Definition IndexError : Exception :=
  mkException "IndexError" "list index out of range".

Definition AttributeError (v : value) (attr : string) : Exception :=
  mkException "AttributeError"
    ("'" +:+ type_name v +:+ "' object has no attribute '" +:+ attr +:+ "'").

Definition RuntimeError (msg : string) : Exception :=
  mkException "RuntimeError" msg.

(** A call either returns or raises. *)
Inductive outcome (A : Type) : Type :=
| Return (a : A)
| Raise (e : Exception).
Global Arguments Return {A} a.
Global Arguments Raise {A} e.

(** [d[key]] on a dict *)
Definition getitem (d : gmap string value) (key : string) : outcome value :=
  match d !! key with
  | Some v => Return v
  | None => Raise (KeyError key)
  end.

Global Instance outcome_ret : MRet outcome := @Return.
Global Instance outcome_bind : MBind outcome := λ A B f m,
  match m with
  | Return a => f a
  | Raise e => Raise e
  end.

(** [d.update({k1: v1, ...})] *)
Definition update (d : gmap string value) (kvs : list (string * value))
  : gmap string value :=
  foldl (λ acc kv, <[kv.1 := kv.2]> acc) d kvs.

(** A [dict] whose iteration order matters: the pairs in insertion
    order. [d[k] = v] overwrites in place when [k] is present and
    appends otherwise. *)
Fixpoint dict_set {V : Type} (k : string) (v : V) (d : list (string * V))
  : list (string * V) :=
  match d with
  | [] => [(k, v)]
  | (k', v') :: d' =>
      if decide (k' = k) then (k, v) :: d' else (k', v') :: dict_set k v d'
  end.

Fixpoint dict_get {V : Type} (k : string) (d : list (string * V)) : option V :=
  match d with
  | [] => None
  | (k', v') :: d' => if decide (k' = k) then Some v' else dict_get k d'
  end.

End Py.

(** ** [app/discover_resources.py] *)
Module Discover.
Import Py.

(** [classify_pdf(link_text)]. [txt = link_text.lower()] is read through
    the ASCII case folding, which decides the three tests as
    [str.lower()] does: the keywords are ASCII, both lower the ASCII
    letters alike, and of the characters outside ASCII only U+0130 and
    U+212A lower to ASCII letters, to an [i] followed by a combining dot
    and to a [k], which take no part in an occurrence of a keyword. *)
Definition classify_pdf (link_text : string) : string :=
  let txt := lower link_text in
  if contains "slide" txt then "slides"
  else if contains "note" txt || contains "lecture" txt then "notes"
  else "unknown".

(** *** The site crawler *)

(** An [<a>] tag of a parsed page: its [href] attribute when it has one,
    and [a.get_text()]. *)
Record anchor : Type := mkAnchor {
  a_href : option string;
  a_text : string
}.

(** [soup.find_all("a", href=True)], each tag as [(a["href"], a.get_text())] *)
Definition find_all_a_href (soup : list anchor) : list (string * string) :=
  omap (λ a, (λ href, (href, a_text a)) <$> a_href a) soup.

Definition ocw_origin : string := "https://ocw.mit.edu".

(** The variables the closure [scrape_page] shares with
    [scrape_ocw_pdfs]: the [visited] set and the [results] list. [fetched]
    records the [requests.get] calls in the order they are issued and
    [clock] counts the readings of [datetime.utcnow()]. *)
Record crawl : Type := mkCrawl {
  visited : gset string;
  results : list (gmap string value);
  fetched : list string;
  clock : nat
}.

Definition crawl_start : crawl := mkCrawl ∅ [] [] 0.

(** [visited.add(url)] followed by the call [requests.get(url, timeout=20)] *)
Definition visit (url : string) (st : crawl) : crawl :=
  mkCrawl ({[url]} ∪ visited st) (results st) (fetched st ++ [url]) (clock st).

(** [results.append(r)] where [r] holds one reading of the clock *)
Definition append_result (r : gmap string value) (st : crawl) : crawl :=
  mkCrawl (visited st) (results st ++ [r]) (fetched st) (S (clock st)).

(** [href.startswith("/courses/") and "/pages/" in href] *)
Definition is_subpage (href : string) : bool :=
  startswith href "/courses/" && contains "/pages/" href.

(** [href if href.startswith("http") else f"https://ocw.mit.edu{href}"] *)
Definition pdf_full_url (href : string) : string :=
  if startswith href "http" then href else ocw_origin +:+ href.

Section Crawler.
(** [requests.get(url, timeout=20).text] parsed by [BeautifulSoup]: the
    anchors of the page in document order, or the exception raised. *)
Variable get : string → outcome (list anchor).
(** The [n]-th reading of [datetime.utcnow().isoformat()]. *)
Variable utcnow_iso : nat → string.
Variable course_handle : string.

Definition base_url : string :=
  "https://ocw.mit.edu/courses/" +:+ course_handle +:+ "/".

Definition pdf_resource (href text url : string) (now : string)
  : gmap string value :=
  list_to_map [
    ("url", VStr (pdf_full_url href));
    ("type", VStr "pdf");
    ("subtype", VStr (classify_pdf text));
    ("course_handle", VStr course_handle);
    ("page_url", VStr url);
    ("source", VStr "MIT OCW");
    ("discovered_at", VStr now) ].

(** The first loop of [scrape_page]: "Find PDFs". *)
Fixpoint find_pdfs (url : string) (links : list (string * string))
  (st : crawl) : crawl :=
  match links with
  | [] => st
  | (href, text) :: links' =>
      if endswith href ".pdf"
      then find_pdfs url links'
             (append_result
                (pdf_resource href text url (utcnow_iso (clock st))) st)
      else find_pdfs url links' st
  end.

(** The second loop of [scrape_page]: "Recurse into subpages", with the
    recursive call as [call]. The flag tells whether the loop ran to
    its end. *)
Fixpoint recurse_subpages (call : string → crawl → bool * crawl)
  (links : list (string * string)) (st : crawl) : bool * crawl :=
  match links with
  | [] => (true, st)
  | (href, _) :: links' =>
      if is_subpage href then
        let full_url := ocw_origin +:+ href in
        if decide (full_url ∈ visited st)
        then recurse_subpages call links' st
        else
          let r := call full_url st in
          if r.1 then recurse_subpages call links' r.2 else (false, r.2)
      else recurse_subpages call links' st
  end.

(** [scrape_page(url)]. [fuel] bounds the depth of the recursion; when
    it runs out the flag is [false] and the state is the one reached
    so far. *)
Fixpoint scrape_page (fuel : nat) (url : string) (st : crawl)
  : bool * crawl :=
  match fuel with
  | O => (false, st)
  | S fuel' =>
      if decide (url ∈ visited st) then (true, st)
      else
        let st := visit url st in
        match get url with
        | Raise e => (true, st)
        | Return soup =>
            let links := find_all_a_href soup in
            recurse_subpages (scrape_page fuel') links
              (find_pdfs url links st)
        end
  end.

(** The run of [scrape_ocw_pdfs]: the call [scrape_page(base_url)] on
    the empty [visited] and [results]. *)
Definition scrape_run (fuel : nat) : bool * crawl :=
  scrape_page fuel base_url crawl_start.

Definition scrape_ocw_pdfs (fuel : nat) : option (list (gmap string value)) :=
  let r := scrape_run fuel in
  if r.1 then Some (results r.2) else None.
End Crawler.

(** *** The video-provider chain *)

(** An item of [channels().list(part="id", ...)]: [item["id"]]. *)
Record channel : Type := mkChannel { channel_id : string }.

(** The response of a channel lookup; [items] is absent from the
    provider's JSON when [channels_items] is [None]. *)
Record channels_response : Type := mkChannelsResponse {
  channels_items : option (list channel)
}.

(** A playlist descriptor: [pl["id"]] and [pl["snippet"]["title"]]. *)
Record playlist : Type := mkPlaylist {
  pl_id : string;
  pl_title : string
}.

(** The arguments of one [playlists().list(...)] request. *)
Record playlists_request : Type := mkPlaylistsRequest {
  rq_part : string;
  rq_channelId : string;
  rq_maxResults : nat;
  rq_pageToken : option string
}.

(** What [res.get("items", [])] and [res.get("nextPageToken")] read. *)
Record playlists_response : Type := mkPlaylistsResponse {
  rs_items : option (list playlist);
  rs_nextPageToken : option string
}.

(** An item of [playlistItems().list(part="snippet", ...)]. *)
Record playlist_item : Type := mkPlaylistItem {
  it_videoId : string;
  it_title : string;
  it_publishedAt : string
}.

Record playlist_items_response : Type := mkPlaylistItemsResponse {
  pi_items : option (list playlist_item)
}.

Section Matcher.
(** What [str.lower()] gives on text that is not ASCII. *)
Variable unicode_lower : string → string.

(** [desired.lower() in title.lower()] *)
Definition fuzzy_match (desired title : string) : bool :=
  contains (str_lower unicode_lower desired) (str_lower unicode_lower title).

(** The loops that fill [found_playlists], a dict from title to id. *)
Definition match_one (desired : string) (all_playlists : list playlist)
  (found_playlists : list (string * string)) : list (string * string) :=
  foldl (λ found pl,
           let title := pl_title pl in
           if fuzzy_match desired title
           then dict_set title (pl_id pl) found
           else found)
        found_playlists all_playlists.

Definition match_playlists (playlist_titles : list string)
  (all_playlists : list playlist) : list (string * string) :=
  foldl (λ found desired, match_one desired all_playlists found)
        [] playlist_titles.
End Matcher.

Section Provider.
(** What [str.lower()] gives on text that is not ASCII. *)
Variable unicode_lower : string → string.
(** [youtube.channels().list(part="id", forHandle=handle,
    maxResults=1).execute()] *)
Variable channels_list : string → outcome channels_response.
(** [youtube.playlists().list(...).execute()] *)
Variable playlists_list : playlists_request → outcome playlists_response.
(** [youtube.playlistItems().list(part="snippet", playlistId=...,
    maxResults=...).execute()] *)
Variable playlist_items_list : string → nat → outcome playlist_items_response.
Variable utcnow_iso : nat → string.

Definition resolve_channel_id (handle : string) : outcome string :=
  let handle := lstrip "@" handle in
  res ← channels_list handle;
  match channels_items res with
  | None => Raise (KeyError "items")
  | Some items =>
      match items !! 0 with
      | None => Raise IndexError
      | Some item => Return (channel_id item)
      end
  end.

(** The [while True] loop of [list_all_playlists]. [requests] records
    the requests issued, in order. The result is [None] when [fuel]
    iterations did not reach the [break]. *)
Fixpoint list_all_playlists_loop (fuel : nat) (channel_id : string)
  (playlists : list playlist) (next_page_token : option string)
  (requests : list playlists_request)
  : option (outcome (list playlist)) * list playlists_request :=
  match fuel with
  | O => (None, requests)
  | S fuel' =>
      let req := mkPlaylistsRequest "snippet" channel_id 50 next_page_token in
      let requests := (requests ++ [req])%list in
      match playlists_list req with
      | Raise e => (Some (Raise e), requests)
      | Return res =>
          let playlists := (playlists ++ default [] (rs_items res))%list in
          let next_page_token := rs_nextPageToken res in
          if negb (truthy_opt next_page_token)
          then (Some (Return playlists), requests)
          else list_all_playlists_loop fuel' channel_id playlists
                 next_page_token requests
      end
  end.

Definition list_all_playlists (fuel : nat) (channel_id : string)
  : option (outcome (list playlist)) * list playlists_request :=
  list_all_playlists_loop fuel channel_id [] None [].

Definition video_resource (item : playlist_item)
  (playlist_title handle now : string) : gmap string value :=
  list_to_map [
    ("url", VStr ("https://www.youtube.com/watch?v=" +:+ it_videoId item));
    ("title", VStr (it_title item));
    ("playlist_title", VStr playlist_title);
    ("channel_handle", VStr handle);
    ("published_at", VStr (it_publishedAt item));
    ("discovered_at", VStr now);
    ("type", VStr "video");
    ("subtype", VStr "lecture") ].

(** [fetch_videos_from_playlist]; [clk] counts the readings of the
    clock before the call, the result carries the count after it. *)
Definition fetch_videos_from_playlist (playlist_id handle playlist_title : string)
  (max_results : nat) (clk : nat) : outcome (list (gmap string value) * nat) :=
  res ← playlist_items_list playlist_id max_results;
  Return
    (foldl (λ acc item,
              ((acc.1 ++ [video_resource item playlist_title handle
                            (utcnow_iso acc.2)])%list, S acc.2))
           ([], clk) (default [] (pi_items res))).

(** The loop over [found_playlists.items()]. *)
Fixpoint fetch_found (handle : string) (found : list (string * string))
  (max_results : nat) (all_videos : list (gmap string value)) (clk : nat)
  : outcome (list (gmap string value) * nat) :=
  match found with
  | [] => Return (all_videos, clk)
  | (title, playlist_id) :: found' =>
      r ← fetch_videos_from_playlist playlist_id handle title max_results clk;
      fetch_found handle found' max_results (all_videos ++ r.1)%list r.2
  end.

Definition fetch_youtube_playlists_by_title (fuel : nat) (handle : string)
  (playlist_titles : list string) (max_results : nat) (clk : nat)
  : option (outcome (list (gmap string value) * nat)) :=
  match resolve_channel_id handle with
  | Raise e => Some (Raise e)
  | Return channel_id =>
      match (list_all_playlists fuel channel_id).1 with
      | None => None
      | Some (Raise e) => Some (Raise e)
      | Some (Return all_playlists) =>
          let found_playlists :=
            match_playlists unicode_lower playlist_titles all_playlists in
          Some (fetch_found handle found_playlists max_results [] clk)
      end
  end.
End Provider.

(** *** Notions used to state the properties *)

(** The log of requests agrees with the visited set: no URL was
    requested twice, and the URLs requested are the visited ones. *)
Definition fetch_log_ok (st : crawl) : Prop :=
  NoDup (fetched st) ∧ ∀ url, url ∈ fetched st ↔ url ∈ visited st.

(** The pages of a finite set [U] not visited yet. *)
Definition unvisited (U : gset string) (st : crawl) : nat :=
  size (U ∖ visited st).

(** A call that runs to its end, and only adds to [visited], whenever
    it starts on a page of [U] with fewer than [n] pages of [U] left. *)
Definition finishes_below (U : gset string) (n : nat)
  (call : string → crawl → bool * crawl) : Prop :=
  ∀ url st, url ∈ U → unvisited U st < n →
    (call url st).1 = true ∧ visited st ⊆ visited (call url st).2.

(** [r] is the Resource emitted for the anchor [link] found on [url]. *)
Definition emitted_for (course_handle url : string) (link : string * string)
  (r : gmap string value) : Prop :=
  r !! "url" = Some (VStr (pdf_full_url link.1)) ∧
  r !! "type" = Some (VStr "pdf") ∧
  r !! "subtype" = Some (VStr (classify_pdf link.2)) ∧
  r !! "course_handle" = Some (VStr course_handle) ∧
  r !! "page_url" = Some (VStr url).

(** A Resource of type [pdf] whose url begins with [http]. *)
Definition pdf_record (r : gmap string value) : Prop :=
  r !! "type" = Some (VStr "pdf") ∧
  ∃ url, r !! "url" = Some (VStr url) ∧ startswith url "http" = true.


(** The requests that fetch [pages] one after the other: page size 50,
    the first with [token], each later one with the continuation token
    of the page before it. *)
Fixpoint page_requests (channel_id : string) (token : option string)
  (pages : list playlists_response) : list playlists_request :=
  match pages with
  | [] => []
  | res :: pages' =>
      mkPlaylistsRequest "snippet" channel_id 50 token
        :: page_requests channel_id (rs_nextPageToken res) pages'
  end.





(** The id of the last playlist of [all] titled [title], [o] if none. *)
Definition last_id_from (o : option string) (title : string)
  (all : list playlist) : option string :=
  foldl (λ o pl, if decide (pl_title pl = title) then Some (pl_id pl) else o)
        o all.

Definition last_id_of (title : string) (all : list playlist) : option string :=
  last_id_from None title all.

(** The capital letters, each with its small letter. *)
Definition letters : list (Ascii.ascii * Ascii.ascii) :=
  zip (String.list_ascii_of_string "ABCDEFGHIJKLMNOPQRSTUVWXYZ")
      (String.list_ascii_of_string "abcdefghijklmnopqrstuvwxyz").

(** Two characters that are the same when case is ignored: the same
    character, or a capital letter and its small letter. *)
Definition same_letter (c d : Ascii.ascii) : Prop :=
  c = d ∨ (c, d) ∈ letters ∨ (d, c) ∈ letters.

(** Two texts that are the same, character by character, when case is
    ignored. *)
Fixpoint same_ignoring_case (a b : string) : Prop :=
  match a, b with
  | EmptyString, EmptyString => True
  | String c a', String d b' => same_letter c d ∧ same_ignoring_case a' b'
  | _, _ => False
  end.

(** [desired] occurs in [title] case-insensitively: some piece of
    [title] is [desired] when case is ignored. *)
Definition occurs_ignoring_case (desired title : string) : Prop :=
  ∃ before w after,
    title = before +:+ w +:+ after ∧ same_ignoring_case w desired.

(** [desired], lowered, occurs in [title], lowered. *)
Definition occurs_lowered (unicode_lower : string → string)
  (desired title : string) : Prop :=
  ∃ before after,
    str_lower unicode_lower title
    = before +:+ str_lower unicode_lower desired +:+ after.

(** Some desired substring occurs in [title], the two compared in lower
    case. *)
Definition matched (unicode_lower : string → string)
  (playlist_titles : list string) (title : string) : Prop :=
  ∃ desired, desired ∈ playlist_titles ∧
             occurs_lowered unicode_lower desired title.

(** The playlist [pl] is among those whose videos are listed: its id is
    the one [found_playlists] holds under its title. *)
Definition selected (unicode_lower : string → string)
  (playlist_titles : list string) (all : list playlist)
  (pl : playlist) : Prop :=
  dict_get (pl_title pl) (match_playlists unicode_lower playlist_titles all)
  = Some (pl_id pl).

(** The matcher's selection rule read playlist by playlist. *)
Definition selected_iff_matched : Prop :=
  ∀ unicode_lower playlist_titles all pl, pl ∈ all →
    (selected unicode_lower playlist_titles all pl ↔
     matched unicode_lower playlist_titles (pl_title pl)).

End Discover.

(** ** [app/ingestion.py] *)
Module Ingest.
Import Py.

(** A computation on the outside world (the network, the file system,
    the object store, the clock): it returns or raises, and leaves the
    world in a new state either way. *)
Definition io (W A : Type) : Type := W → outcome A * W.

Global Instance io_ret {W} : MRet (io W) := λ A a w, (Return a, w).
Global Instance io_bind {W} : MBind (io W) := λ A B f m w,
  match m w with
  | (Return a, w') => f a w'
  | (Raise e, w') => (Raise e, w')
  end.

Definition raise {W A} (e : Exception) : io W A := λ w, (Raise e, w).

(** A pure step that may raise, inside [io]. *)
Definition lift {W A} (o : outcome A) : io W A := λ w, (o, w).

(** A step on the world that cannot raise, inside [io]. *)
Definition total {W A} (f : W → A * W) : io W A := λ w,
  let r := f w in (Return r.1, r.2).

(** What [ydl.extract_info] gives: [info.get("ext")] and
    [info.get("chapters")], [None] when absent or null. *)
Record ydl_info : Type := mkInfo {
  info_ext : option string;
  info_chapters : option (list value)
}.

(** The aggregate record [ingestion_metadata]. *)
Record ingestion_job : Type := mkJob {
  job_id : string;
  ingested_at : string;
  num_total : nat;
  num_success : nat;
  num_failed : nat;
  job_resources : list (gmap string value)
}.

(** The collaborators of the ingestion run, over a world [W]. *)
Record collaborators (W : Type) : Type := mkCollaborators {
  (** [str(uuid.uuid4())] *)
  uuid4 : W → string * W;
  (** [datetime.utcnow().isoformat()] *)
  utcnow_iso : W → string * W;
  (** reading and [json.loads] of the discovery file, local or [s3://] *)
  load_discovery : string → io W (list (gmap string value));
  (** [YoutubeDL({"skip_download": True}).extract_info(url, download=False)] *)
  ydl_extract_info : string → io W ydl_info;
  (** entering [tempfile.TemporaryDirectory()] *)
  tmp_enter : io W string;
  (** leaving it, on return and on raise alike *)
  tmp_exit : string → W → W;
  (** [subprocess.run(["yt-dlp", ..., "-o", tmp_dir/..., url], check=True)] *)
  yt_dlp_run : string → string → io W unit;
  (** [glob.glob(f"{tmp_dir}/*")] *)
  glob_dir : string → io W (list string);
  (** [s3.upload_file(local_file, S3_BUCKET, key)] *)
  s3_upload_file : string → string → io W unit;
  (** [s3.put_object(Bucket, Key=key, Body=json.dumps(chapters), ...)] *)
  s3_put_chapters : string → list value → io W unit;
  (** [s3.put_object(Bucket, Key=key, Body=json.dumps(metadata), ...)] *)
  s3_put_metadata : string → ingestion_job → io W unit
}.
Global Arguments uuid4 {W} _.
Global Arguments utcnow_iso {W} _.
Global Arguments load_discovery {W} _ _.
Global Arguments ydl_extract_info {W} _ _.
Global Arguments tmp_enter {W} _.
Global Arguments tmp_exit {W} _ _ _.
Global Arguments yt_dlp_run {W} _ _ _.
Global Arguments glob_dir {W} _ _.
Global Arguments s3_upload_file {W} _ _ _.
Global Arguments s3_put_chapters {W} _ _ _.
Global Arguments s3_put_metadata {W} _ _ _.

Section Ingestion.
Context {W : Type} (c : collaborators W).

(** [with tempfile.TemporaryDirectory() as tmp_dir: body] *)
Definition with_tmp_dir {A} (body : string → io W A) : io W A := λ w,
  match tmp_enter c w with
  | (Return tmp_dir, w1) =>
      let r := body tmp_dir w1 in (r.1, tmp_exit c tmp_dir r.2)
  | (Raise e, w1) => (Raise e, w1)
  end.

Definition upload_youtube_audio_with_chapters (video_url key_prefix : string)
  : io W (string * option string) :=
  let video_id := last_piece (split video_url "v=") in
  info ← ydl_extract_info c video_url;
  let ext := default "m4a" (info_ext info) in
  let chapters := default [] (info_chapters info) in
  with_tmp_dir (λ tmp_dir,
    _ ← yt_dlp_run c tmp_dir video_url;
    downloaded_files ← glob_dir c tmp_dir;
    match downloaded_files with
    | [] => raise (RuntimeError ("No file downloaded for " +:+ video_url))
    | local_file :: _ =>
        let ext := lstrip "." (splitext_ext local_file) in
        let audio_key := key_prefix +:+ video_id +:+ "." +:+ ext in
        _ ← s3_upload_file c local_file audio_key;
        chapters_key ←
          match chapters with
          | _ :: _ =>
              let chapters_key := key_prefix +:+ video_id +:+ "_chapters.json" in
              _ ← s3_put_chapters c chapters_key chapters;
              mret (Some chapters_key)
          | [] => mret None
          end;
        mret (audio_key, chapters_key)
    end).

Definition opt_str (o : option string) : value :=
  match o with
  | Some s => VStr s
  | None => VNone
  end.

(** The body of the [try] for the resource [r] and its copy
    [enriched]; [None] stands for [continue]. *)
Definition try_body (r enriched : gmap string value)
  : io W (option (gmap string value)) :=
  ty ← lift (getitem r "type");
  if eq_str ty "pdf" then mret None
  else if eq_str ty "video" then
    url ← lift (getitem r "url");
    match url with
    | VStr video_url =>
        res ← upload_youtube_audio_with_chapters video_url "audio/";
        if truthy_str res.1 then
          now ← total (utcnow_iso c);
          mret (Some (update enriched [
            ("s3_key", VStr res.1);
            ("chapters_key", opt_str res.2);
            ("uploaded_at", VStr now);
            ("status", VStr "success") ]))
        else
          mret (Some (update enriched [
            ("status", VStr "failed");
            ("reason", VStr "upload returned None") ]))
    | v => raise (AttributeError v "split")
    end
  else
    mret (Some (update enriched [
      ("status", VStr "skipped");
      ("reason", VStr "unknown type") ])).

(** The record the [except Exception as e] clause builds. *)
Definition failed_record (enriched : gmap string value) (e : Exception)
  : gmap string value :=
  update enriched [ ("status", VStr "failed"); ("reason", VStr (exc_str e)) ].

(** One turn of the [for r in resources] loop: the record to append
    to [processed], or [None] when the turn ends in [continue]. *)
Definition handle_item (r : gmap string value)
  : W → option (gmap string value) * W := λ w,
  let enriched := r in
  match try_body r enriched w with
  | (Return o, w') => (o, w')
  | (Raise e, w') => (Some (failed_record enriched e), w')
  end.

Fixpoint process_resources (resources : list (gmap string value))
  (processed : list (gmap string value)) (w : W)
  : list (gmap string value) * W :=
  match resources with
  | [] => (processed, w)
  | r :: resources' =>
      let h := handle_item r w in
      process_resources resources'
        (match h.1 with
         | Some enriched => processed ++ [enriched]
         | None => processed
         end) h.2
  end.

(** [sum(1 for r in processed if r["status"] == status)] *)
Fixpoint count_status (status : string) (processed : list (gmap string value))
  : outcome nat :=
  match processed with
  | [] => Return 0
  | r :: processed' =>
      s ← getitem r "status";
      n ← count_status status processed';
      Return (if eq_str s status then S n else n)
  end.

Definition ingestion_metadata (job_id timestamp : string)
  (resources processed : list (gmap string value)) : outcome ingestion_job :=
  num_success ← count_status "success" processed;
  num_failed ← count_status "failed" processed;
  Return (mkJob job_id timestamp (length resources) num_success num_failed
            processed).

(** The job a run builds from a loaded manifest: the loop started in
    the world [w], then [ingestion_metadata]. *)
Definition job_of (job_id timestamp : string)
  (resources : list (gmap string value)) (w : W) : outcome ingestion_job :=
  ingestion_metadata job_id timestamp resources
    (process_resources resources [] w).1.

(** [run_ingestion(discovery_file)]; the result is the job record
    handed to the object store. *)
Definition run_ingestion (discovery_file : string) : io W ingestion_job :=
  job_id ← total (uuid4 c);
  timestamp ← total (utcnow_iso c);
  resources ← load_discovery c discovery_file;
  processed ← total (process_resources resources []);
  _ ← total (utcnow_iso c);
  ingestion_metadata ← lift (ingestion_metadata job_id timestamp
                               resources processed);
  _ ← s3_put_metadata c
        ("metadata/ingestion/ingestion_" +:+ timestamp +:+ ".json")
        ingestion_metadata;
  mret ingestion_metadata.

(** *** Notions used to state the properties *)

(** The world in which the loop reaches the item of index [i]. *)
Definition world_before (resources : list (gmap string value)) (i : nat)
  (w : W) : W :=
  (process_resources (take i resources) [] w).2.

(** What the acquisition of [video_url] does when the loop reaches the
    item of index [i]. *)
Definition acquisition (resources : list (gmap string value)) (i : nat)
  (video_url : string) (w : W) : outcome (string * option string) :=
  (upload_youtube_audio_with_chapters video_url "audio/"
     (world_before resources i w)).1.
End Ingestion.

(** The fields the ingestion handler may write. *)
Definition outcome_keys : gset string :=
  {[ "status"; "reason"; "s3_key"; "chapters_key"; "uploaded_at" ]}.

(** [r["type"] == "pdf"] holds *)
Definition is_pdf (r : gmap string value) : bool :=
  match r !! "type" with
  | Some ty => eq_str ty "pdf"
  | None => false
  end.

(** A video Resource with the given url. *)
Definition is_video (r : gmap string value) (video_url : string) : Prop :=
  r !! "type" = Some (VStr "video") ∧ r !! "url" = Some (VStr video_url).

Definition returns {A} (o : outcome A) : Prop := ∃ a, o = Return a.

(** The record of a video whose audio was uploaded. *)
Definition success_record (r : gmap string value)
  (res : string * option string) (now : string) : gmap string value :=
  update r [ ("s3_key", VStr res.1); ("chapters_key", opt_str res.2);
             ("uploaded_at", VStr now); ("status", VStr "success") ].

(** The shapes an Ingestion Record of the Resource [r] can take. *)
Inductive record_of (r : gmap string value) : gmap string value → Prop :=
| record_success res now : record_of r (success_record r res now)
| record_failed reason :
    record_of r (update r [ ("status", VStr "failed");
                            ("reason", VStr reason) ])
| record_skipped :
    record_of r (update r [ ("status", VStr "skipped");
                            ("reason", VStr "unknown type") ]).

(** [r["status"] == status] holds *)
Definition status_is (status : string) (r : gmap string value) : bool :=
  match r !! "status" with
  | Some s => eq_str s status
  | None => false
  end.

(** The size of the part of [processed] with the given status. *)
Definition status_count (status : string)
  (processed : list (gmap string value)) : nat :=
  length (filter (λ r, status_is status r = true) processed).

(** The partial-failure scenario with the reason required non-empty:
    five videos, the acquisition of the third raises, the others return. *)
Definition partial_failure_nonempty_reason : Prop :=
  ∀ (W : Type) (c : collaborators W) job_id timestamp (w : W)
    r1 r2 r3 r4 r5 u1 u2 u3 u4 u5,
    let resources := [r1; r2; r3; r4; r5] in
    is_video r1 u1 → is_video r2 u2 → is_video r3 u3 →
    is_video r4 u4 → is_video r5 u5 →
    returns (acquisition c resources 0 u1 w) →
    returns (acquisition c resources 1 u2 w) →
    (∃ e, acquisition c resources 2 u3 w = Raise e) →
    returns (acquisition c resources 3 u4 w) →
    returns (acquisition c resources 4 u5 w) →
    ∃ job rec3 reason,
      job_of c job_id timestamp resources w = Return job ∧
      num_total job = 5 ∧ num_success job = 4 ∧ num_failed job = 1 ∧
      job_resources job !! 2 = Some rec3 ∧
      rec3 !! "status" = Some (VStr "failed") ∧
      rec3 !! "reason" = Some (VStr reason) ∧ reason ≠ "".

End Ingest.

(** ** Concrete sites, providers and manifests *)
Module Fixtures.
Import Py Discover Ingest.

(** A site given by its pages; any other URL cannot be reached. *)
Definition site_of (pages : list (string * list anchor)) (url : string)
  : outcome (list anchor) :=
  match dict_get url pages with
  | Some soup => Return soup
  | None => Raise (mkException "ConnectionError" ("no route to " +:+ url))
  end.

Definition link (href text : string) : anchor := mkAnchor (Some href) text.

(** Every sub-page link of the pages leads into [U]. *)
Definition links_stay_in (pages : list (string * list anchor))
  (U : gset string) : Prop :=
  Forall (λ page,
            Forall (λ l, is_subpage l.1 = true → ocw_origin +:+ l.1 ∈ U)
                   (find_all_a_href page.2))
         pages.

Definition tick (n : nat) : string := "2025-09-24T20:20:" +:+ pretty n.

(** The course home links to page A, A links to B, B links back to A. *)
Definition cyclic_pages : list (string * list anchor) :=
  [ ("https://ocw.mit.edu/courses/c/",
     [ link "/courses/c/pages/a/" "A" ]);
    ("https://ocw.mit.edu/courses/c/pages/a/",
     [ link "/courses/c/pages/b/" "B"; link "/courses/c/a.pdf" "Lecture notes" ]);
    ("https://ocw.mit.edu/courses/c/pages/b/",
     [ link "/courses/c/pages/a/" "A"; link "/courses/c/" "Home" ]) ].

Definition cyclic_urls : gset string :=
  {[ "https://ocw.mit.edu/courses/c/";
     "https://ocw.mit.edu/courses/c/pages/a/";
     "https://ocw.mit.edu/courses/c/pages/b/" ]}.

(** The home of course [c] links to the syllabus of course [d]. *)
Definition cross_course_pages : list (string * list anchor) :=
  [ ("https://ocw.mit.edu/courses/c/",
     [ link "/courses/d/pages/syllabus/" "Related course" ]);
    ("https://ocw.mit.edu/courses/d/pages/syllabus/",
     [ link "/courses/d/syllabus.pdf" "Syllabus notes" ]) ].

(** A channel lookup that matches nothing. *)
Definition no_such_channel (handle : string) : outcome channels_response :=
  Return (mkChannelsResponse (Some [])).

(** Page tokens: the offset of the page, in unary after a [t]. *)
Fixpoint unary (n : nat) : string :=
  match n with
  | O => ""
  | S n' => String "i" (unary n')
  end.

Definition page_token (offset : nat) : string := String "t" (unary offset).

Definition paged_provider (all : list playlist) (rq : playlists_request)
  : outcome playlists_response :=
  let offset := match rq_pageToken rq with
                | None => 0
                | Some t => String.length t - 1
                end in
  let size := rq_maxResults rq `min` 50 in
  Return (mkPlaylistsResponse
            (Some (take size (drop offset all)))
            (if offset + size <? length all
             then Some (page_token (offset + size)) else None)).


Definition three_playlists : list playlist :=
  [ mkPlaylist "PL1" "Lecture Videos";
    mkPlaylist "PL2" "Recitation Videos";
    mkPlaylist "PL3" "Exam Review" ].

(** Two playlists of one channel under the same title. *)
Definition twin_playlists : list playlist :=
  [ mkPlaylist "PL-2019" "Lectures"; mkPlaylist "PL-2020" "Lectures" ].

Definition video (video_id : string) : gmap string value :=
  list_to_map [
    ("url", VStr ("https://www.youtube.com/watch?v=" +:+ video_id));
    ("title", VStr ("Lecture " +:+ video_id));
    ("type", VStr "video");
    ("subtype", VStr "lecture") ].

Definition lecture_pdf : gmap string value :=
  list_to_map [
    ("url", VStr "https://ocw.mit.edu/courses/c/a.pdf");
    ("type", VStr "pdf");
    ("subtype", VStr "notes");
    ("page_url", VStr "https://ocw.mit.edu/courses/c/pages/a/") ].

Definition five_videos : list (gmap string value) :=
  [ video "v1"; video "v2"; video "v3"; video "v4"; video "v5" ].

(** Collaborators over a world that is the list of keys written to the
    object store: metadata extraction raises what [fails] says for the
    URL, every other step goes through. *)
Definition studio (fails : string → option Exception)
  : collaborators (list string) :=
  {| uuid4 := λ w, ("0b6f2c1e-7d5a-4c3b-9a51-1f0e8d2c4b6a", w);
     utcnow_iso := λ w, ("2025-09-24T20:20:15", w);
     load_discovery := λ _ w, (Return five_videos, w);
     ydl_extract_info := λ url w,
       match fails url with
       | Some e => (Raise e, w)
       | None => (Return (mkInfo (Some "m4a") None), w)
       end;
     tmp_enter := λ w, (Return "/tmp/tmpk3v9", w);
     tmp_exit := λ _ w, w;
     yt_dlp_run := λ _ _ w, (Return (), w);
     glob_dir := λ tmp_dir w, (Return [tmp_dir +:+ "/audio.m4a"], w);
     s3_upload_file := λ _ key w, (Return (), w ++ [key]);
     s3_put_chapters := λ key _ w, (Return (), w ++ [key]);
     s3_put_metadata := λ key _ w, (Return (), w ++ [key]) |}.

(** The third video cannot be extracted. *)
Definition third_fails (e : Exception) (url : string) : option Exception :=
  if decide (url = "https://www.youtube.com/watch?v=v3") then Some e else None.

Definition download_error : Exception :=
  mkException "DownloadError" "ERROR: [youtube] v3: Video unavailable".

(** What a bare [assert] raises: [str(AssertionError())] is empty. *)
Definition assertion_error : Exception := mkException "AssertionError" "".

(** The titles of the fixtures are ASCII, so that the lowering of other
    text is never asked for; it is taken to keep the text as it is. *)
Definition as_is (s : string) : string := s.

End Fixtures.

(** ** The discovery job and its configuration *)
Module Job.
Import Py Discover.

Definition ValueError (msg : string) : Exception :=
  mkException "ValueError" msg.

(** The configuration document: [cfg.get("ocw_courses")] and the items
    of [cfg.get("youtube_playlists")], in the order of the document. *)
Record config : Type := mkConfig {
  ocw_courses : option (list string);
  youtube_playlists : option (list (string * list string))
}.

Section LoadConfig.
(** [json.loads(s3.get_object(Bucket=bucket, Key=key)["Body"].read())] *)
Variable s3_get_config : string → string → outcome config.
(** [json.load(open(path))] *)
Variable open_config : string → outcome config.

(** [load_config()], with the module constant [CONFIG_FILE] as argument. *)
Definition load_config (CONFIG_FILE : string) : outcome config :=
  if startswith CONFIG_FILE "s3://" then
    match split CONFIG_FILE "/" with
    | _ :: bucket :: key_parts =>
        let key := String.concat "/" key_parts in
        s3_get_config bucket key
    | _ =>
        Raise (ValueError
                 "not enough values to unpack (expected at least 2, got 1)")
    end
  else open_config CONFIG_FILE.
End LoadConfig.

Section Main.
(** What [str.lower()] gives on text that is not ASCII. *)
Variable unicode_lower : string → string.
Variable get : string → outcome (list anchor).
Variable channels_list : string → outcome channels_response.
Variable playlists_list : playlists_request → outcome playlists_response.
Variable playlist_items_list : string → nat → outcome playlist_items_response.
(** The [n]-th reading of the clock in the run, in ISO format and in the
    format [%Y%m%d-%H%M%S]. *)
Variable utcnow_iso : nat → string.
Variable utcnow_stamp : nat → string.
(** [s3.put_object(Bucket=S3_BUCKET, Key=key, Body=json.dumps(data), ...)] *)
Variable put_object : string → list (gmap string value) → outcome unit.
(** [os.getenv("YOUTUBE_API_KEY")] *)
Variable YOUTUBE_API_KEY : option string.

(** The loop over [cfg.get("ocw_courses", [])]; [clk] counts the readings
    of the clock so far. [None] when a crawl needs more than [fuel]. *)
Fixpoint crawl_courses (fuel : nat) (handles : list string)
  (all_resources : list (gmap string value)) (clk : nat)
  : option (list (gmap string value) * nat) :=
  match handles with
  | [] => Some (all_resources, clk)
  | handle :: handles' =>
      let r := scrape_run get (λ n, utcnow_iso (clk + n)) handle fuel in
      if r.1
      then crawl_courses fuel handles' (all_resources ++ results r.2)
             (clk + clock r.2)
      else None
  end.

(** The loop over [cfg.get("youtube_playlists", {}).items()]. *)
Fixpoint fetch_channels (fuel : nat) (channels : list (string * list string))
  (all_resources : list (gmap string value)) (clk : nat)
  : option (outcome (list (gmap string value) * nat)) :=
  match channels with
  | [] => Some (Return (all_resources, clk))
  | (handle, playlist_titles) :: channels' =>
      match fetch_youtube_playlists_by_title unicode_lower channels_list
              playlists_list playlist_items_list utcnow_iso fuel handle
              playlist_titles 20 clk
      with
      | None => None
      | Some (Raise e) => Some (Raise e)
      | Some (Return r) =>
          fetch_channels fuel channels' (all_resources ++ r.1) r.2
      end
  end.

(** [save_to_s3(data)] with the default prefix: the key written. *)
Definition save_to_s3 (data : list (gmap string value)) (clk : nat)
  : outcome string :=
  let timestamp := utcnow_stamp clk in
  let key := "urls" +:+ "/discovered_" +:+ timestamp +:+ ".json" in
  _ ← put_object key data;
  Return key.

(** The main job on a loaded configuration: how the script ends (with
    the manifest it gathered) and the objects it wrote to the store. *)
Definition discover (fuel : nat) (cfg : config)
  : option (outcome (list (gmap string value))
            * list (string * list (gmap string value))) :=
  match crawl_courses fuel (default [] (ocw_courses cfg)) [] 0 with
  | None => None
  | Some (all_resources, clk) =>
      match (if truthy_opt YOUTUBE_API_KEY
             then fetch_channels fuel (default [] (youtube_playlists cfg))
                    all_resources clk
             else Some (Return (all_resources, clk))) with
      | None => None
      | Some (Raise e) => Some (Raise e, [])
      | Some (Return (all_resources, clk)) =>
          match all_resources with
          | _ :: _ =>
              match save_to_s3 all_resources clk with
              | Return key => Some (Return all_resources, [(key, all_resources)])
              | Raise e => Some (Raise e, [])
              end
          | [] => Some (Return all_resources, [])
          end
      end
  end.
End Main.

End Job.

(** ** Loading the manifest and the document upload of [app/ingestion.py] *)
Module IngestIO.
Import Py Ingest.

(** [s[n:]] *)
Fixpoint drop_chars (n : nat) (s : string) : string :=
  match n, s with
  | S n', String _ s' => drop_chars n' s'
  | _, _ => s
  end.

Section Load.
Context {W : Type}.
(** [json.loads(s3.get_object(Bucket=bucket, Key=key)["Body"].read())] *)
Variable s3_get_json : string → string → io W (list (gmap string value)).
(** [json.load(open(path))] *)
Variable open_json : string → io W (list (gmap string value)).

(** The loading of [resources] at the start of [run_ingestion]. *)
Definition load_discovery_file (discovery_file : string)
  : io W (list (gmap string value)) :=
  if startswith discovery_file "s3://" then
    let path := drop_chars (String.length "s3://") discovery_file in
    match split path "/" with
    | bucket :: key_parts =>
        let key := String.concat "/" key_parts in
        s3_get_json bucket key
    | [] =>
        raise (Job.ValueError
                 "not enough values to unpack (expected at least 1, got 0)")
    end
  else open_json discovery_file.
End Load.

Section UploadPdf.
Context {W R : Type}.
(** [requests.get(url, stream=True, timeout=60)] *)
Variable http_get : string → io W R.
(** [r.raise_for_status()] *)
Variable raise_for_status : R → outcome unit.
(** [s3.upload_fileobj(r.raw, S3_BUCKET, s3_key)] *)
Variable s3_upload_fileobj : R → string → io W unit.
(** leaving [with requests.get(...) as r] *)
Variable close : R → W → W.

(** [upload_pdf_to_s3(url, key_prefix)]; [None] is Python's [None]. *)
Definition upload_pdf_to_s3 (url key_prefix : string)
  : W → option string * W := λ w,
  let filename := last_piece (split url "/") in
  let s3_key := key_prefix +:+ filename in
  match http_get url w with
  | (Return r, w1) =>
      let body := (_ ← lift (raise_for_status r);
                   s3_upload_fileobj r s3_key) w1 in
      (match body.1 with
       | Return _ => Some s3_key
       | Raise e => None
       end, close r body.2)
  | (Raise e, w1) => (None, w1)
  end.
End UploadPdf.

End IngestIO.

(** ** Further notions used to state properties *)
Module Notions.
Import Py Discover Ingest.

(** The pages a crawl can come to: the seed, and the target of every
    sub-page link of a page that can be reached and fetched. *)
Inductive reachable (get : string → outcome (list anchor))
  (course_handle : string) : string → Prop :=
| reachable_seed : reachable get course_handle (base_url course_handle)
| reachable_link url soup href text :
    reachable get course_handle url →
    get url = Return soup →
    (href, text) ∈ find_all_a_href soup →
    is_subpage href = true →
    reachable get course_handle (ocw_origin +:+ href).

(** [link] is an anchor to a document on the visited, fetched page [url]. *)
Definition pdf_anchor_of (get : string → outcome (list anchor)) (st : crawl)
  (url : string) (link : string * string) : Prop :=
  url ∈ visited st ∧
  ∃ soup, get url = Return soup ∧ link ∈ find_all_a_href soup ∧
          endswith link.1 ".pdf" = true.

(** The results are those of the document anchors of the visited,
    fetched pages: each result is emitted for one, and each one has its
    result. *)
Definition results_exact (get : string → outcome (list anchor))
  (course_handle : string) (st : crawl) : Prop :=
  Forall (λ r, ∃ url link, pdf_anchor_of get st url link ∧
                           emitted_for course_handle url link r)
         (results st) ∧
  ∀ url link, pdf_anchor_of get st url link →
    ∃ r, r ∈ results st ∧ emitted_for course_handle url link r.

Definition on_ocw_courses (url : string) : Prop :=
  startswith url "https://ocw.mit.edu/courses/" = true.

(** Every sub-page link of the page [u] leads to a visited page. *)
Definition links_visited (get : string → outcome (list anchor)) (u : string)
  (st : crawl) : Prop :=
  ∀ soup href text,
    get u = Return soup → (href, text) ∈ find_all_a_href soup →
    is_subpage href = true → ocw_origin +:+ href ∈ visited st.

(** A call that, when it runs to its end, has visited its page, has only
    added to [visited], and has followed every link of the pages it added. *)
Definition explores (get : string → outcome (list anchor))
  (call : string → crawl → bool * crawl) : Prop :=
  ∀ url st, (call url st).1 = true →
    url ∈ visited (call url st).2 ∧
    visited st ⊆ visited (call url st).2 ∧
    ∀ u, u ∈ visited (call url st).2 → u ∉ visited st →
         links_visited get u (call url st).2.

(** A video Resource of the channel [handle], listed under the title of
    a playlist of [all] that some desired substring matches. *)
Definition video_record (unicode_lower : string → string) (handle : string)
  (playlist_titles : list string) (all : list playlist)
  (r : gmap string value) : Prop :=
  r !! "type" = Some (VStr "video") ∧
  r !! "subtype" = Some (VStr "lecture") ∧
  r !! "channel_handle" = Some (VStr handle) ∧
  (∃ video_id,
     r !! "url" = Some (VStr ("https://www.youtube.com/watch?v=" +:+ video_id))) ∧
  ∃ pl, pl ∈ all ∧
        r !! "playlist_title" = Some (VStr (pl_title pl)) ∧
        matched unicode_lower playlist_titles (pl_title pl).

(** The anchors whose href ends in [.pdf] on the pages [urls] whose
    fetch returned, each with its page: page by page in the order of
    [urls], and in document order within a page. *)
Definition pdf_anchors (get : string → outcome (list anchor))
  (urls : list string) : list (string * (string * string)) :=
  urls ≫= λ url,
    match get url with
    | Return soup =>
        pair url <$> filter (λ link, endswith link.1 ".pdf" = true)
                            (find_all_a_href soup)
    | Raise _ => []
    end.

(** An absolute URL of the web: it begins with [http://] or [https://]. *)
Definition is_absolute (url : string) : bool :=
  startswith url "http://" || startswith url "https://".

(** Every Resource a crawl emits has an absolute url. *)
Definition emitted_urls_absolute : Prop :=
  ∀ (get : string → outcome (list anchor)) (utcnow_iso : nat → string)
    (course_handle : string) (fuel : nat),
    Forall (λ r, ∃ url, r !! "url" = Some (VStr url) ∧ is_absolute url = true)
           (results (scrape_run get utcnow_iso course_handle fuel).2).

(** A Resource as the discovery job builds them. *)
Inductive discovered : gmap string value → Prop :=
| discovered_pdf course_handle href text url now :
    discovered (pdf_resource course_handle href text url now)
| discovered_video item playlist_title handle now :
    discovered (video_resource item playlist_title handle now).

(** The status of a record, when it has one. *)
Definition status_of (e : gmap string value) : option value := e !! "status".

(** [r["type"] == "video"] holds *)
Definition is_video_type (r : gmap string value) : bool :=
  match r !! "type" with
  | Some ty => eq_str ty "video"
  | None => false
  end.

(** Whether the acquisition of [video_url] returns in the world [w]. *)
Definition succeeds {W} (c : collaborators W) (video_url : string) (w : W)
  : bool :=
  match (upload_youtube_audio_with_chapters c video_url "audio/" w).1 with
  | Return _ => true
  | Raise _ => false
  end.

End Notions.

(** ** More concrete providers, stores and configurations *)
Module MoreFixtures.
Import Py Discover Ingest Job IngestIO Fixtures.

(** A provider that answers every request with a continuation token. *)
Definition endless_provider (rq : playlists_request)
  : outcome playlists_response :=
  Return (mkPlaylistsResponse (Some three_playlists) (Some "again")).

(** A provider whose second page cannot be served. *)
Definition failing_second_page (rq : playlists_request)
  : outcome playlists_response :=
  match rq_pageToken rq with
  | None => Return (mkPlaylistsResponse (Some three_playlists) (Some "p2"))
  | Some _ => Raise (mkException "HttpError" "quotaExceeded")
  end.

Definition one_channel (handle : string) : outcome channels_response :=
  Return (mkChannelsResponse (Some [mkChannel "UC-c"])).

Definition lecture_items (playlist_id : string) (max_results : nat)
  : outcome playlist_items_response :=
  Return (mkPlaylistItemsResponse
            (Some (take max_results
                     [ mkPlaylistItem "v1" "Lecture 1" "2020-02-03T10:00:00Z";
                       mkPlaylistItem "v2" "Lecture 2" "2020-02-10T10:00:00Z" ]))).

Definition stamp (n : nat) : string := "20250924-2020" +:+ pretty n.

Definition accept_put (key : string) (data : list (gmap string value))
  : outcome unit := Return ().

Definition sample_config : config :=
  mkConfig (Some ["c"]) (Some [("@mitocw", ["lecture"])]).

(** An object store holding one manifest. *)
Definition manifest_store (bucket key : string)
  : io (list string) (list (gmap string value)) := λ w,
  if decide (bucket = "edu-data" ∧ key = "urls/discovered_20250924.json")
  then (Return five_videos, w)
  else (Raise (mkException "NoSuchKey" key), w).

Definition no_local_file (path : string)
  : io (list string) (list (gmap string value)) := λ w,
  (Raise (mkException "FileNotFoundError" path), w).

(** A web server that answers every request with status 200; the
    response is its status code. *)
Definition http_ok (url : string) : io (list string) nat := λ w,
  (Return 200, w).

Definition check_status (status : nat) : outcome unit :=
  if status <? 400 then Return ()
  else Raise (mkException "HTTPError" (pretty status)).

Definition store_fileobj (r : nat) (key : string) : io (list string) unit :=
  λ w, (Return (), w ++ [key]).

Definition close_response (r : nat) (w : list string) : list string := w.

(** The studio, with a discovery file that cannot be read. *)
Definition studio_without_manifest : collaborators (list string) :=
  let s := studio (λ _, None) in
  {| uuid4 := uuid4 s;
     utcnow_iso := utcnow_iso s;
     load_discovery := λ path w,
       (Raise (mkException "FileNotFoundError" path), w);
     ydl_extract_info := ydl_extract_info s;
     tmp_enter := tmp_enter s;
     tmp_exit := tmp_exit s;
     yt_dlp_run := yt_dlp_run s;
     glob_dir := glob_dir s;
     s3_upload_file := s3_upload_file s;
     s3_put_chapters := s3_put_chapters s;
     s3_put_metadata := s3_put_metadata s |}.

Definition lecture_item : playlist_item :=
  mkPlaylistItem "v1" "Lecture 1" "2020-02-03T10:00:00Z".

(** A course home with a link to a document beside it, written as a
    relative path that begins with [http]. *)
Definition relative_link_pages : list (string * list anchor) :=
  [ ("https://ocw.mit.edu/courses/c/",
     [ mkAnchor (Some "httpd-notes.pdf") "Notes on httpd" ]) ].

End MoreFixtures.

#[local] Set Warnings "-clear-no-such-hyp".

(** ** Facts about the Python fragment *)
Module PyFacts.
Import Py.

Lemma update_lookup_other (d : gmap string value) kvs k :
  k ∉ kvs.*1 → update d kvs !! k = d !! k.
Proof.
  unfold update. revert d.
  induction kvs as [|[k' v'] kvs IH]; intros d Hk; simpl; [done|].
  rewrite IH; [apply lookup_insert_ne|]; intros ?; apply Hk; simpl.
  - subst. left.
  - by right.
Qed.

Lemma dict_get_set {V} (k k' : string) (v : V) d :
  dict_get k' (dict_set k v d) =
  if decide (k = k') then Some v else dict_get k' d.
Proof.
  induction d as [|[k0 v0] d IH]; simpl.
  - repeat case_decide; done.
  - destruct (decide (k0 = k)) as [->|Hne]; simpl.
    + repeat case_decide; done.
    + rewrite IH. repeat case_decide; congruence.
Qed.

Lemma dict_set_keys {V} (k : string) (v : V) d :
  NoDup d.*1 →
  NoDup (dict_set k v d).*1 ∧
  ∀ k', k' ∈ (dict_set k v d).*1 ↔ k' = k ∨ k' ∈ d.*1.
Proof.
  induction d as [|[k0 v0] d IH]; simpl; intros Hnd.
  - split; [apply NoDup_singleton|]. intros k'. set_solver.
  - apply NoDup_cons in Hnd as [Hk0 Hnd]. destruct (IH Hnd) as [IH1 IH2].
    destruct (decide (k0 = k)) as [->|Hne]; simpl.
    + split; [by apply NoDup_cons|]. set_solver.
    + split.
      * apply NoDup_cons. split; [|done]. rewrite IH2. intros [?|?]; done.
      * intros k'. rewrite !elem_of_cons, IH2. tauto.
Qed.

End PyFacts.

(** ** The site crawler *)
Module CrawlerFacts.
Import Py Discover Fixtures.

Section Crawler.
Variable get : string → outcome (list anchor).
Variable utcnow_iso : nat → string.
Variable course_handle : string.

Lemma find_pdfs_visited url links st :
  visited (find_pdfs utcnow_iso course_handle url links st) = visited st.
Proof.
  revert st. induction links as [|[href text] links IH]; intros st; simpl;
    [done|].
  destruct (endswith href ".pdf"); rewrite IH; done.
Qed.

(** Whatever holds at the start of [scrape_page] and survives a visit
    and an emitted Resource holds in the state the call leaves. *)
Lemma scrape_page_preserves (P : crawl → Prop) :
  (∀ url st, url ∉ visited st → P st → P (visit url st)) →
  (∀ href text url st, endswith href ".pdf" = true → P st →
     P (append_result
          (pdf_resource course_handle href text url (utcnow_iso (clock st)))
          st)) →
  ∀ fuel url st,
    P st → P (scrape_page get utcnow_iso course_handle fuel url st).2.
Proof.
  intros Hvisit Happend.
  assert (∀ url links st,
            P st → P (find_pdfs utcnow_iso course_handle url links st))
    as Hfind.
  { intros url links.
    induction links as [|[href text] links IH]; intros st Hst; simpl; [done|].
    destruct (endswith href ".pdf") eqn:E; apply IH; [by apply Happend|done]. }
  assert (∀ call, (∀ u s, P s → P (call u s).2) →
            ∀ links st, P st → P (recurse_subpages call links st).2) as Hrec.
  { intros call Hcall links.
    induction links as [|[href text] links IH]; intros st Hst; simpl; [done|].
    destruct (is_subpage href); [|by apply IH].
    case_decide; [by apply IH|].
    pose proof (Hcall (ocw_origin +:+ href) st Hst) as Hst'.
    destruct (call _ st) as [[] st']; simpl in *; [by apply IH|done]. }
  induction fuel as [|fuel IH]; intros url st Hst; simpl; [done|].
  case_decide; [done|].
  destruct (get url) as [soup|e]; simpl.
  - apply Hrec; [exact IH|]. by apply Hfind, Hvisit.
  - by apply Hvisit.
Qed.

Lemma fetch_log_ok_visit url st :
  url ∉ visited st → fetch_log_ok st → fetch_log_ok (visit url st).
Proof.
  intros Hnew [Hnd Hiff]. split; simpl.
  - apply NoDup_app. split; [done|]. split; [|apply NoDup_singleton].
    intros u Hu Hu'. apply list_elem_of_singleton in Hu' as ->.
    apply Hnew, Hiff, Hu.
  - intros u. rewrite elem_of_app, list_elem_of_singleton, Hiff.
    rewrite elem_of_union, elem_of_singleton. tauto.
Qed.

Lemma fetch_log_ok_run fuel :
  fetch_log_ok (scrape_run get utcnow_iso course_handle fuel).2.
Proof.
  apply (scrape_page_preserves fetch_log_ok).
  - apply fetch_log_ok_visit.
  - done.
  - split; [constructor|]. intros u; simpl. set_solver.
Qed.

Lemma fetch_log_ok_size st :
  fetch_log_ok st → length (fetched st) = size (visited st).
Proof.
  intros [Hnd Hiff].
  assert (visited st = list_to_set (fetched st)) as ->.
  { apply set_eq. intros u. rewrite elem_of_list_to_set. by rewrite Hiff. }
  by rewrite size_list_to_set.
Qed.

Lemma pdf_full_url_http href : startswith (pdf_full_url href) "http" = true.
Proof.
  unfold pdf_full_url. destruct (startswith href "http") eqn:E; [done|].
  reflexivity.
Qed.

Lemma find_pdfs_results url links st :
  ∃ emitted,
    results (find_pdfs utcnow_iso course_handle url links st)
    = results st ++ emitted ∧
    Forall2 (emitted_for course_handle url)
            (filter (λ link, endswith link.1 ".pdf" = true) links) emitted.
Proof.
  revert st. induction links as [|[href text] links IH]; intros st; simpl.
  - exists []. by rewrite app_nil_r.
  - destruct (endswith href ".pdf") eqn:E.
    + rewrite filter_cons_True by done.
      destruct (IH (append_result
                      (pdf_resource course_handle href text url
                         (utcnow_iso (clock st))) st))
        as (emitted & -> & Hall).
      eexists (_ :: emitted). simpl. rewrite <- app_assoc.
      split; [done|]. constructor; [by repeat split|done].
    + rewrite filter_cons_False by (simpl; congruence). apply IH.
Qed.

Lemma results_are_pdf_records fuel :
  Forall pdf_record (results (scrape_run get utcnow_iso course_handle fuel).2).
Proof.
  apply (scrape_page_preserves (λ st, Forall pdf_record (results st))).
  - done.
  - intros href text url st _ Hst. simpl. apply Forall_app. split; [done|].
    constructor; [|done]. split; [done|].
    exists (pdf_full_url href). split; [done|apply pdf_full_url_http].
  - constructor.
Qed.
End Crawler.

Section Finite.
Variable get : string → outcome (list anchor).
Variable utcnow_iso : nat → string.
Variable course_handle : string.
(** A finite set of pages that the followed links never leave. *)
Variable U : gset string.
Hypothesis U_closed : ∀ url soup href text,
  url ∈ U → get url = Return soup →
  (href, text) ∈ find_all_a_href soup → is_subpage href = true →
  ocw_origin +:+ href ∈ U.

Lemma unvisited_mono st st' :
  visited st ⊆ visited st' → unvisited U st' ≤ unvisited U st.
Proof. intros H. unfold unvisited. apply subseteq_size. set_solver. Qed.

Lemma unvisited_visit url st :
  url ∈ U → url ∉ visited st → unvisited U (visit url st) < unvisited U st.
Proof.
  intros HU Hnew. unfold unvisited; simpl. apply subset_size. set_solver.
Qed.

Lemma recurse_subpages_finishes n call links st :
  finishes_below U n call →
  (∀ href text, (href, text) ∈ links → is_subpage href = true →
     ocw_origin +:+ href ∈ U) →
  unvisited U st < n →
  (recurse_subpages call links st).1 = true ∧
  visited st ⊆ visited (recurse_subpages call links st).2.
Proof.
  intros Hcall. revert st.
  induction links as [|[href text] links IH]; intros st Hin Hlt; simpl;
    [done|].
  assert (∀ h t, (h, t) ∈ links → is_subpage h = true →
            ocw_origin +:+ h ∈ U) as Hin'
    by (intros h t ?; apply (Hin h t); by right).
  destruct (is_subpage href) eqn:Hsub; [|by apply IH].
  case_decide; [by apply IH|].
  destruct (Hcall (ocw_origin +:+ href) st) as [Hfin Hmono]; [|done|].
  { apply (Hin href text); [left|done]. }
  rewrite Hfin.
  destruct (IH (call (ocw_origin +:+ href) st).2) as [Hfin' Hmono'];
    [done| |].
  { eapply Nat.le_lt_trans; [by apply unvisited_mono|done]. }
  split; [done|]. set_solver.
Qed.

Lemma scrape_page_finishes fuel :
  finishes_below U fuel (scrape_page get utcnow_iso course_handle fuel).
Proof.
  induction fuel as [|fuel IH]; intros url st HU Hlt; [lia|]. simpl.
  case_decide as Hnew; [done|].
  destruct (get url) as [soup|e] eqn:Hget; simpl; [|set_solver].
  pose proof (unvisited_visit url st HU Hnew) as Hdec.
  destruct (recurse_subpages_finishes fuel
              (scrape_page get utcnow_iso course_handle fuel)
              (find_all_a_href soup)
              (find_pdfs utcnow_iso course_handle url (find_all_a_href soup)
                 (visit url st))) as [Hfin Hmono]; [done| | |].
  - intros href text. by apply (U_closed url soup).
  - unfold unvisited in *. rewrite find_pdfs_visited. lia.
  - split; [done|]. rewrite find_pdfs_visited in Hmono. simpl in Hmono.
    set_solver.
Qed.
End Finite.

(** C4. In every run of the crawl, cut off at any depth, no page URL is
    requested twice: the requests issued are as many as the visited set
    has elements, without repetition, and they are the visited URLs. *)
Theorem crawl_fetches_each_url_once
  (get : string → outcome (list anchor)) (utcnow_iso : nat → string)
  (course_handle : string) (fuel : nat) :
  let st := (scrape_run get utcnow_iso course_handle fuel).2 in
  length (fetched st) = size (visited st) ∧
  NoDup (fetched st) ∧
  ∀ url, url ∈ fetched st ↔ url ∈ visited st.
Proof.
  intros st.
  pose proof (fetch_log_ok_run get utcnow_iso course_handle fuel) as Hok.
  split; [by apply fetch_log_ok_size|]. exact Hok.
Qed.

(** C5. On a finite site graph, cycles included, the crawl terminates:
    when the seed lies in a finite set [U] of pages that the followed
    links never leave, every run allowed a depth above the size of [U]
    runs to its end and returns its results. *)
Theorem crawl_terminates
  (get : string → outcome (list anchor)) (utcnow_iso : nat → string)
  (course_handle : string) (U : gset string) (fuel : nat) :
  base_url course_handle ∈ U →
  (∀ url soup href text,
     url ∈ U → get url = Return soup →
     (href, text) ∈ find_all_a_href soup → is_subpage href = true →
     ocw_origin +:+ href ∈ U) →
  size U < fuel →
  (scrape_run get utcnow_iso course_handle fuel).1 = true ∧
  is_Some (scrape_ocw_pdfs get utcnow_iso course_handle fuel).
Proof.
  intros Hseed Hclosed Hfuel.
  destruct (scrape_page_finishes get utcnow_iso course_handle U Hclosed fuel
              (base_url course_handle) crawl_start) as [Hfin _]; [done| |].
  { unfold unvisited; simpl. eapply Nat.le_lt_trans; [|done].
    apply subseteq_size. set_solver. }
  unfold scrape_ocw_pdfs, scrape_run. rewrite Hfin. eauto.
Qed.

Lemma dict_get_elem {V} (k : string) (v : V) d :
  dict_get k d = Some v → (k, v) ∈ d.
Proof.
  induction d as [|[k' v'] d IH]; simpl; [done|].
  case_decide as Hk.
  - intros [= ->]. subst. left.
  - intros H. right. by apply IH.
Qed.

Lemma site_of_closed pages (U : gset string) url soup href text :
  links_stay_in pages U →
  site_of pages url = Return soup →
  (href, text) ∈ find_all_a_href soup → is_subpage href = true →
  ocw_origin +:+ href ∈ U.
Proof.
  unfold links_stay_in, site_of. intros Hall Hget Hin Hsub.
  destruct (dict_get url pages) as [soup'|] eqn:Hpage; [|done].
  injection Hget as ->. apply dict_get_elem in Hpage.
  rewrite Forall_forall in Hall. specialize (Hall _ Hpage). simpl in Hall.
  rewrite Forall_forall in Hall. by apply (Hall _ Hin).
Qed.

(** The crawl of the site where page A links to B and B back to A. *)
Lemma crawl_terminates_witness :
  (scrape_run (site_of cyclic_pages) tick "c" 4).1 = true ∧
  is_Some (scrape_ocw_pdfs (site_of cyclic_pages) tick "c" 4).
Proof.
  apply (crawl_terminates (site_of cyclic_pages) tick "c" cyclic_urls 4).
  - unfold cyclic_urls. rewrite !elem_of_union, !elem_of_singleton.
    vm_compute. tauto.
  - intros url soup href text _.
    apply site_of_closed. unfold links_stay_in.
    apply (bool_decide_unpack _). vm_compute. exact I.
  - vm_compute. lia.
Defined.

Lemma prefix_app (s t : string) : String.prefix s (s +:+ t) = true.
Proof.
  induction s as [|c s IH]; simpl; [by destruct t|].
  destruct (Ascii.ascii_dec c c); [exact IH|done].
Qed.

Lemma contains_unfold (needle hay : string) :
  contains needle hay =
  if String.prefix needle hay then true
  else match hay with
       | EmptyString => false
       | String _ hay' => contains needle hay'
       end.
Proof. by destruct hay. Qed.

Lemma contains_app_r (needle before hay : string) :
  contains needle hay = true → contains needle (before +:+ hay) = true.
Proof.
  intros H. induction before as [|c before IH]; [done|].
  rewrite contains_unfold. simpl String.append.
  destruct (String.prefix needle _); [done|exact IH].
Qed.

Lemma contains_here (needle rest : string) :
  contains needle (needle +:+ rest) = true.
Proof. rewrite contains_unfold. by rewrite prefix_app. Qed.

(** The sub-page test accepts the pages of any course. *)
Lemma is_subpage_any_course (other page : string) :
  is_subpage ("/courses/" +:+ other +:+ "/pages/" +:+ page) = true.
Proof.
  unfold is_subpage, startswith. rewrite prefix_app. simpl andb.
  apply (contains_app_r "/pages/" "/courses/" (other +:+ "/pages/" +:+ page)).
  apply (contains_app_r "/pages/" other ("/pages/" +:+ page)).
  apply contains_here.
Qed.

(** C8. The crawl of course [c] whose home links to a sub-page of course
    [d]: the page of [d] is requested, and the document found on it is
    emitted under the course handle [c]; the sub-page test accepts the
    pages of every course. *)
Theorem crawl_follows_other_courses :
  let r := scrape_run (site_of cross_course_pages) tick "c" 3 in
  r.1 = true ∧
  fetched r.2 = [ "https://ocw.mit.edu/courses/c/";
                  "https://ocw.mit.edu/courses/d/pages/syllabus/" ] ∧
  (λ x, (x !! "url", x !! "course_handle")) <$> results r.2
  = [ (Some (VStr "https://ocw.mit.edu/courses/d/syllabus.pdf"),
       Some (VStr "c")) ] ∧
  ∀ other page,
    is_subpage ("/courses/" +:+ other +:+ "/pages/" +:+ page) = true.
Proof.
  split; [|split; [|split]]; [by vm_compute..|].
  apply is_subpage_any_course.
Qed.

End CrawlerFacts.

(** ** Lowering and occurrence *)
Module CaseFacts.
Import Py Discover CrawlerFacts.

Lemma ascii_lower_cases c :
  ascii_lower c = c ∨ (c, ascii_lower c) ∈ letters.
Proof.
  destruct c as [[] [] [] [] [] [] [] []];
    apply (bool_decide_unpack _); vm_compute; exact I.
Qed.

Lemma letters_lower c d :
  (c, d) ∈ letters → ascii_lower c = d ∧ ascii_lower d = d.
Proof.
  assert (Forall (λ p, ascii_lower p.1 = p.2 ∧ ascii_lower p.2 = p.2) letters)
    as Hall by (apply (bool_decide_unpack _); vm_compute; exact I).
  intros Hin. rewrite Forall_forall in Hall. apply (Hall _ Hin).
Qed.

Lemma letters_capital c c' d :
  (c, d) ∈ letters → (c', d) ∈ letters → c = c'.
Proof.
  assert (Forall (λ p, Forall (λ q, p.2 = q.2 → p.1 = q.1) letters) letters)
    as Hall by (apply (bool_decide_unpack _); vm_compute; exact I).
  intros Hc Hc'. rewrite Forall_forall in Hall. specialize (Hall _ Hc).
  rewrite Forall_forall in Hall. by apply (Hall _ Hc').
Qed.

Lemma same_letter_lower c d : same_letter c d ↔ ascii_lower c = ascii_lower d.
Proof.
  split.
  - intros [->|[H|H]]; [done|..]; apply letters_lower in H as [H1 H2];
      congruence.
  - intros Heq. unfold same_letter.
    destruct (ascii_lower_cases c) as [Hc|Hc],
             (ascii_lower_cases d) as [Hd|Hd].
    + left. congruence.
    + right. right. by replace c with (ascii_lower d) by congruence.
    + right. left. by replace d with (ascii_lower c) by congruence.
    + left. rewrite Heq in Hc. by eapply letters_capital.
Qed.

Lemma same_ignoring_case_lower a b :
  same_ignoring_case a b ↔ lower a = lower b.
Proof.
  revert b. induction a as [|c a IH]; intros [|d b]; simpl; try done.
  rewrite same_letter_lower, IH. split; [by intros [-> ->]|].
  by intros [= ??].
Qed.

Lemma lower_split t x y :
  lower t = x +:+ y → ∃ t1 t2, t = t1 +:+ t2 ∧ lower t1 = x ∧ lower t2 = y.
Proof.
  revert t. induction x as [|c x IH]; intros t.
  - intros H. by exists "", t.
  - destruct t as [|d t]; [done|].
    change (String c x +:+ y) with (String c (x +:+ y)). simpl.
    intros [= Hc H]. destruct (IH t H) as (t1 & t2 & -> & <- & <-).
    exists (String d t1), t2. simpl. by rewrite Hc.
Qed.

Lemma lower_append a b : lower (a +:+ b) = lower a +:+ lower b.
Proof.
  induction a as [|c a IH]; [done|].
  change (String (ascii_lower c) (lower (a +:+ b))
          = String (ascii_lower c) (lower a +:+ lower b)). by f_equal.
Qed.

Lemma prefix_split p s : String.prefix p s = true ↔ ∃ r, s = p +:+ r.
Proof.
  revert s. induction p as [|c p IH]; intros s.
  - split; [|by destruct s]. intros _. by exists s.
  - destruct s as [|d s].
    + split; [done|]. by intros [r Hr].
    + cbn [String.prefix]. destruct (Ascii.ascii_dec c d) as [->|Hne].
      * rewrite IH. split; intros [r Hr]; exists r.
        -- by rewrite Hr.
        -- by injection Hr.
      * split; [done|]. intros [r Hr]. injection Hr. congruence.
Qed.

Lemma contains_split needle hay :
  contains needle hay = true ↔ ∃ a b, hay = a +:+ needle +:+ b.
Proof.
  split.
  - induction hay as [|c hay IH]; rewrite contains_unfold.
    + destruct (String.prefix needle "") eqn:E; [|done].
      apply prefix_split in E as [r Hr]. intros _. by exists "", r.
    + destruct (String.prefix needle (String c hay)) eqn:E.
      * apply prefix_split in E as [r Hr]. intros _. by exists "", r.
      * intros (a & b & ->)%IH. by exists (String c a), b.
  - intros (a & b & ->). apply contains_app_r, contains_here.
Qed.

Lemma occurs_ignoring_case_lower desired title :
  occurs_ignoring_case desired title ↔
  ∃ before after, lower title = before +:+ lower desired +:+ after.
Proof.
  split.
  - intros (a & w & b & -> & Hw). apply same_ignoring_case_lower in Hw.
    exists (lower a), (lower b). by rewrite !lower_append, Hw.
  - intros (x & y & H).
    apply lower_split in H as (a & t2 & -> & <- & H).
    apply lower_split in H as (w & b & -> & Hw & <-).
    exists a, w, b. split; [done|]. by apply same_ignoring_case_lower.
Qed.

Lemma occurs_lowered_ascii unicode_lower desired title :
  is_ascii desired = true → is_ascii title = true →
  (occurs_lowered unicode_lower desired title ↔
   occurs_ignoring_case desired title).
Proof.
  intros Hd Ht. unfold occurs_lowered, str_lower. rewrite Hd, Ht.
  by rewrite occurs_ignoring_case_lower.
Qed.

Lemma fuzzy_match_lowered unicode_lower desired title :
  fuzzy_match unicode_lower desired title = true ↔
  occurs_lowered unicode_lower desired title.
Proof. apply contains_split. Qed.
End CaseFacts.

(** ** The video-provider chain *)
Module ProviderFacts.
Import Py Discover Fixtures PyFacts CaseFacts.

(** C1. When the channel lookup returns no matching item, channel
    resolution raises what indexing the result raises: [IndexError]
    on an empty [items] list, [KeyError] when [items] is absent. No
    [NotFoundError] is raised, and the exception leaves
    [fetch_youtube_playlists_by_title] as it is. *)
Theorem resolve_channel_id_empty_lookup
  (channels_list : string → outcome channels_response)
  (handle : string) (res : channels_response) :
  channels_list (lstrip "@" handle) = Return res →
  default [] (channels_items res) = [] →
  ∃ e, resolve_channel_id channels_list handle = Raise e ∧
       (e = IndexError ∨ e = KeyError "items") ∧
       exc_class e ≠ "NotFoundError" ∧
       ∀ unicode_lower playlists_list playlist_items_list utcnow_iso fuel
         titles max_results clk,
         fetch_youtube_playlists_by_title unicode_lower channels_list
           playlists_list playlist_items_list utcnow_iso fuel handle titles
           max_results clk
         = Some (Raise e).
Proof.
  intros Hres Hempty.
  assert (∃ e, resolve_channel_id channels_list handle = Raise e ∧
               (e = IndexError ∨ e = KeyError "items")) as (e & He & Hcase).
  { unfold resolve_channel_id. rewrite Hres. simpl.
    destruct (channels_items res) as [items|]; simpl in *.
    - subst items. exists IndexError. split; [done|by left].
    - exists (KeyError "items"). split; [done|by right]. }
  exists e. split; [done|]. split; [done|]. split.
  - by destruct Hcase as [-> | ->].
  - intros. unfold fetch_youtube_playlists_by_title. by rewrite He.
Qed.

Lemma resolve_channel_id_empty_lookup_witness :
  ∃ e, resolve_channel_id no_such_channel "@nosuchchannel" = Raise e ∧
       (e = IndexError ∨ e = KeyError "items") ∧
       exc_class e ≠ "NotFoundError" ∧
       ∀ unicode_lower playlists_list playlist_items_list utcnow_iso fuel
         titles max_results clk,
         fetch_youtube_playlists_by_title unicode_lower no_such_channel
           playlists_list playlist_items_list utcnow_iso fuel "@nosuchchannel"
           titles max_results clk
         = Some (Raise e).
Proof.
  apply (resolve_channel_id_empty_lookup no_such_channel "@nosuchchannel"
           (mkChannelsResponse (Some []))); reflexivity.
Defined.

Section Enumerator.
Variable playlists_list : playlists_request → outcome playlists_response.






End Enumerator.





Lemma last_id_from_spec o title all :
  last_id_from o title all =
  match last_id_of title all with
  | Some i => Some i
  | None => o
  end.
Proof.
  unfold last_id_of, last_id_from. revert o.
  induction all as [|pl all IH] using rev_ind; intros o; simpl; [done|].
  rewrite !foldl_app. simpl. case_decide; [done|]. apply IH.
Qed.

Section Matcher.
Variable unicode_lower : string → string.

Lemma match_one_get desired all found title :
  dict_get title (match_one unicode_lower desired all found) =
  if fuzzy_match unicode_lower desired title
  then last_id_from (dict_get title found) title all
  else dict_get title found.
Proof.
  unfold match_one, last_id_from. revert found.
  induction all as [|pl all IH]; intros found; simpl.
  - by destruct (fuzzy_match unicode_lower desired title).
  - rewrite IH.
    destruct (fuzzy_match unicode_lower desired (pl_title pl)) eqn:Hpl.
    + rewrite dict_get_set. case_decide as Ht; [|done].
      subst title. by rewrite Hpl.
    + case_decide as Ht; [|done]. subst title. by rewrite Hpl.
Qed.

Lemma match_playlists_get playlist_titles all title :
  dict_get title (match_playlists unicode_lower playlist_titles all) =
  if existsb (λ desired, fuzzy_match unicode_lower desired title)
       playlist_titles
  then last_id_of title all
  else None.
Proof.
  unfold match_playlists.
  assert (∀ found,
    dict_get title
      (foldl (λ found desired, match_one unicode_lower desired all found)
             found playlist_titles) =
    if existsb (λ desired, fuzzy_match unicode_lower desired title)
         playlist_titles
    then last_id_from (dict_get title found) title all
    else dict_get title found) as Hgen.
  { induction playlist_titles as [|desired titles IH]; intros found; simpl;
      [done|].
    rewrite IH, match_one_get.
    destruct (fuzzy_match unicode_lower desired title); simpl; [|done].
    rewrite (last_id_from_spec (last_id_from _ _ _)).
    rewrite (last_id_from_spec (dict_get title found)).
    destruct (last_id_of title all); by destruct (existsb _ _). }
  by rewrite Hgen.
Qed.

Lemma existsb_matched playlist_titles title :
  existsb (λ desired, fuzzy_match unicode_lower desired title) playlist_titles
  = true ↔
  matched unicode_lower playlist_titles title.
Proof.
  unfold matched. rewrite existsb_exists.
  setoid_rewrite fuzzy_match_lowered. by setoid_rewrite list_elem_of_In.
Qed.

Lemma match_playlists_keys playlist_titles all :
  NoDup (match_playlists unicode_lower playlist_titles all).*1.
Proof.
  unfold match_playlists.
  assert (∀ desired found, NoDup found.*1 →
            NoDup (match_one unicode_lower desired all found).*1) as Hone.
  { intros desired. unfold match_one.
    induction all as [|pl all' IH]; intros found Hnd; simpl; [done|].
    apply IH. destruct (fuzzy_match _ _); [|done]. by apply dict_set_keys. }
  assert (∀ found, NoDup found.*1 →
    NoDup (foldl (λ found desired, match_one unicode_lower desired all found)
                 found playlist_titles).*1) as Hgen.
  { induction playlist_titles as [|d ds IH]; intros found Hnd; simpl; [done|].
    by apply IH, Hone. }
  apply Hgen. constructor.
Qed.
End Matcher.

Lemma last_id_of_unique all pl :
  NoDup (pl_title <$> all) → pl ∈ all →
  last_id_of (pl_title pl) all = Some (pl_id pl).
Proof.
  unfold last_id_of, last_id_from.
  induction all as [|pl' all IH] using rev_ind; intros Hnd Hin;
    [by apply elem_of_nil in Hin|].
  rewrite foldl_app. simpl.
  rewrite fmap_app in Hnd. apply NoDup_app in Hnd as (Hnd & Hdisj & _).
  apply elem_of_app in Hin as [Hin|Hin].
  - case_decide as Ht; [|by apply IH].
    exfalso. apply (Hdisj (pl_title pl)).
    + apply list_elem_of_fmap. eauto.
    + simpl. rewrite Ht. left.
  - apply list_elem_of_singleton in Hin as ->. by rewrite decide_True.
Qed.

(** C7 as stated fails: of two playlists with the same title, both
    matched by a desired substring, only the later one is selected. *)
Lemma same_title_not_selected : ¬ selected_iff_matched.
Proof.
  intros Hclaim.
  destruct (Hclaim as_is ["lect"] twin_playlists
              (mkPlaylist "PL-2019" "Lectures")) as [_ Hsel]; [left|].
  assert (matched as_is ["lect"] "Lectures") as Hm.
  { exists "lect". split; [left|]. by exists "", "ures". }
  specialize (Hsel Hm). vm_compute in Hsel. discriminate Hsel.
Qed.

(** C7, amended. Whatever [str.lower()] does outside ASCII:
    [found_playlists] holds a title exactly when an enumerated playlist
    bears it and some desired substring, lowered, occurs in it, lowered;
    each title once, with the id of the last enumerated playlist of that
    title. So a playlist is selected exactly when its title is matched
    and no later playlist shares the title; when titles are pairwise
    distinct, exactly when its title is matched. On ASCII text the test
    of the code is the occurrence of the substring in the title with
    case ignored. Of "Lecture Videos", "Recitation Videos" and "Exam
    Review", "lecture" selects the first only and "videos" selects the
    first two. *)
Theorem matcher_selects (unicode_lower : string → string)
  (playlist_titles : list string) (all : list playlist) :
  (∀ title i,
     dict_get title (match_playlists unicode_lower playlist_titles all)
     = Some i ↔
     matched unicode_lower playlist_titles title ∧
     last_id_of title all = Some i) ∧
  (∀ pl,
     selected unicode_lower playlist_titles all pl ↔
     matched unicode_lower playlist_titles (pl_title pl) ∧
     last_id_of (pl_title pl) all = Some (pl_id pl)) ∧
  NoDup (match_playlists unicode_lower playlist_titles all).*1 ∧
  (NoDup (pl_title <$> all) →
   ∀ pl, pl ∈ all →
     (selected unicode_lower playlist_titles all pl ↔
      matched unicode_lower playlist_titles (pl_title pl))) ∧
  (∀ desired title,
     (fuzzy_match unicode_lower desired title = true ↔
      occurs_lowered unicode_lower desired title) ∧
     (is_ascii desired = true → is_ascii title = true →
      (fuzzy_match unicode_lower desired title = true ↔
       occurs_ignoring_case desired title))) ∧
  match_playlists unicode_lower ["lecture"] three_playlists
  = [ ("Lecture Videos", "PL1") ] ∧
  match_playlists unicode_lower ["videos"] three_playlists
  = [ ("Lecture Videos", "PL1"); ("Recitation Videos", "PL2") ].
Proof.
  assert (∀ title i,
     dict_get title (match_playlists unicode_lower playlist_titles all)
     = Some i ↔
     matched unicode_lower playlist_titles title ∧
     last_id_of title all = Some i) as Hget.
  { intros title i. rewrite match_playlists_get.
    destruct (existsb _ _) eqn:E.
    - apply existsb_matched in E. tauto.
    - split; [done|]. intros [Hm _]. apply existsb_matched in Hm. congruence. }
  split; [exact Hget|]. split; [intros pl; apply Hget|].
  split; [apply match_playlists_keys|].
  split; [|split; [|split; reflexivity]].
  - intros Hnd pl Hin. unfold selected. rewrite Hget.
    split; [tauto|]. intros Hm. split; [done|]. by apply last_id_of_unique.
  - intros desired title. split; [apply fuzzy_match_lowered|].
    intros Hd Ht. rewrite fuzzy_match_lowered.
    by apply occurs_lowered_ascii.
Qed.

Lemma matcher_selects_witness :
  (selected as_is ["videos"] three_playlists
     (mkPlaylist "PL2" "Recitation Videos") ↔
   matched as_is ["videos"] "Recitation Videos") ∧
  (fuzzy_match as_is "VIDEOS" "Recitation Videos" = true ↔
   occurs_ignoring_case "VIDEOS" "Recitation Videos").
Proof.
  destruct (matcher_selects as_is ["videos"] three_playlists)
    as (_ & _ & _ & Hdistinct & Hascii & _).
  split.
  - apply Hdistinct.
    + apply (bool_decide_unpack _). vm_compute. exact I.
    + right. left.
  - apply (Hascii "VIDEOS" "Recitation Videos"); reflexivity.
Defined.
End ProviderFacts.

(** ** The ingestion run *)
Module IngestFacts.
Import Py Ingest Fixtures PyFacts.

Lemma record_of_frame r e k :
  record_of r e → k ∉ outcome_keys → e !! k = r !! k.
Proof.
  intros Hrec Hk. destruct Hrec; unfold success_record;
    apply update_lookup_other; simpl;
    intros Hin; apply Hk; unfold outcome_keys; set_solver.
Qed.

Lemma record_of_status r e :
  record_of r e → is_Some (e !! "status").
Proof.
  intros Hrec. destruct Hrec; unfold success_record, update; simpl;
    eexists; by simplify_map_eq.
Qed.

Lemma record_of_subseteq r e :
  record_of r e → dom r ## outcome_keys → r ⊆ e.
Proof.
  intros Hrec Hdisj. apply map_subseteq_spec. intros k v Hk.
  rewrite (record_of_frame r e k Hrec); [done|].
  intros Hin. apply (Hdisj k); [|done]. apply elem_of_dom. eauto.
Qed.

Lemma failed_record_status r e :
  failed_record r e !! "status" = Some (VStr "failed") ∧
  failed_record r e !! "reason" = Some (VStr (exc_str e)).
Proof. unfold failed_record, update; simpl. split; by simplify_map_eq. Qed.

Lemma success_record_status r res now :
  status_is "success" (success_record r res now) = true ∧
  status_is "failed" (success_record r res now) = false.
Proof.
  unfold status_is, success_record, update; simpl.
  by rewrite lookup_insert_eq.
Qed.

Lemma failed_record_status_is r e :
  status_is "success" (failed_record r e) = false ∧
  status_is "failed" (failed_record r e) = true.
Proof.
  unfold status_is. by destruct (failed_record_status r e) as [-> _].
Qed.

Section Run.
Context {W : Type} (c : collaborators W).
Local Arguments update : simpl never.

Lemma handle_item_raise r w e w' :
  try_body c r r w = (Raise e, w') →
  handle_item c r w = (Some (failed_record r e), w').
Proof. unfold handle_item. by intros ->. Qed.

Lemma handle_item_pdf r w :
  is_pdf r = true → handle_item c r w = (None, w).
Proof.
  unfold is_pdf, handle_item, try_body, lift, getitem, mbind, io_bind.
  destruct (r !! "type") as [ty|]; [|done]. by intros ->.
Qed.

Lemma handle_item_not_pdf r w :
  is_pdf r = false →
  ∃ e, (handle_item c r w).1 = Some e ∧ record_of r e.
Proof.
  unfold is_pdf, handle_item, try_body, failed_record, lift, getitem,
    raise, total.
  unfold mbind, io_bind, mret, io_ret.
  destruct (r !! "type") as [ty|]; [intros ->|intros _]; simpl;
    [|eexists; split; [done|constructor]].
  destruct (eq_str ty "video");
    [|eexists; split; [done|constructor]].
  destruct (r !! "url") as [url|];
    [|eexists; split; [done|constructor]].
  destruct url as [| | | |video_url| |];
    try (eexists; split; [done|constructor]).
  destruct (upload_youtube_audio_with_chapters c video_url "audio/" w)
    as [[res|ex] w']; [|eexists; split; [done|constructor]].
  destruct (truthy_str res.1); eexists; (split; [done|]).
  - apply (record_success r res).
  - constructor.
Qed.

Lemma process_resources_app l1 l2 processed w :
  process_resources c (l1 ++ l2) processed w =
  process_resources c l2 (process_resources c l1 processed w).1
                         (process_resources c l1 processed w).2.
Proof.
  revert processed w.
  induction l1 as [|r l1 IH]; intros processed w; simpl; [done|]. apply IH.
Qed.

Lemma process_resources_step r resources processed w :
  process_resources c (r :: resources) processed w =
  process_resources c resources
    (match (handle_item c r w).1 with
     | Some enriched => processed ++ [enriched]
     | None => processed
     end) (handle_item c r w).2.
Proof. done. Qed.

Lemma process_resources_world resources processed processed' w :
  (process_resources c resources processed w).2 =
  (process_resources c resources processed' w).2.
Proof.
  revert processed processed' w.
  induction resources as [|r resources IH]; intros p p' w; simpl; [done|].
  apply IH.
Qed.

(** The records of a run are, in order, one for each Resource that
    is not a [pdf]. *)
Lemma process_resources_records resources processed w :
  ∃ new, (process_resources c resources processed w).1 = processed ++ new ∧
         Forall2 record_of (filter (λ r, is_pdf r = false) resources) new.
Proof.
  revert processed w.
  induction resources as [|r resources IH]; intros processed w; simpl.
  - exists []. by rewrite app_nil_r.
  - destruct (is_pdf r) eqn:Hpdf.
    + rewrite handle_item_pdf by done. simpl.
      rewrite filter_cons_False by (rewrite Hpdf; done). apply IH.
    + destruct (handle_item_not_pdf r w Hpdf) as (e & He & Hrec).
      rewrite He. rewrite filter_cons_True by done.
      destruct (IH (processed ++ [e]) (handle_item c r w).2)
        as (new & Hnew & Hall).
      exists (e :: new). split; [by rewrite Hnew, <- app_assoc|].
      by constructor.
Qed.

Lemma count_status_returns status processed :
  Forall (λ e, is_Some (e !! "status")) processed →
  count_status status processed = Return (status_count status processed).
Proof.
  unfold status_count.
  induction 1 as [|e processed [s Hs] _ IH]; simpl; [done|].
  unfold getitem. rewrite Hs. simpl. rewrite IH. simpl.
  destruct (eq_str s status) eqn:E.
  - rewrite filter_cons_True; [done|]. unfold status_is. by rewrite Hs.
  - rewrite filter_cons_False; [done|]. unfold status_is.
    rewrite Hs, E. done.
Qed.

(** The job of a run: [num_total] counts the Resources of the
    manifest, the other two counts the records by status. *)
Lemma job_of_returns job_id timestamp resources w :
  let processed := (process_resources c resources [] w).1 in
  job_of c job_id timestamp resources w =
  Return (mkJob job_id timestamp (length resources)
            (status_count "success" processed)
            (status_count "failed" processed) processed).
Proof.
  intros processed. unfold job_of, ingestion_metadata. fold processed.
  assert (Forall (λ e, is_Some (e !! "status")) processed) as Hst.
  { destruct (process_resources_records resources [] w)
      as (new & Hnew & Hall).
    subst processed. rewrite Hnew. simpl. clear Hnew.
    induction Hall as [|r e ? ? Hrec _ IH]; constructor; [|done].
    by apply (record_of_status r). }
  by rewrite !count_status_returns by done.
Qed.

Lemma audio_key_truthy video_url w res w' :
  upload_youtube_audio_with_chapters c video_url "audio/" w
  = (Return res, w') →
  truthy_str res.1 = true.
Proof.
  unfold upload_youtube_audio_with_chapters, with_tmp_dir, raise.
  unfold mbind, io_bind, mret, io_ret.
  destruct (ydl_extract_info c video_url w) as [[info|?] w1]; [|done].
  destruct (tmp_enter c w1) as [[tmp_dir|?] w2]; [|done].
  destruct (yt_dlp_run c tmp_dir video_url w2) as [[[]|?] w3]; [|done].
  destruct (glob_dir c tmp_dir w3) as [[[|local_file files]|?] w4];
    [done| |done].
  destruct (s3_upload_file c local_file _ w4) as [[[]|?] w5]; [|done].
  destruct (default [] (info_chapters info)) as [|ch chs].
  - simpl. by intros [= <- _].
  - destruct (s3_put_chapters c _ _ w5) as [[[]|?] w6]; [|done].
    simpl. by intros [= <- _].
Qed.

(** A turn of the loop on a video: success when the acquisition
    returns, the failure record when it raises. *)
Lemma handle_item_video r video_url w :
  is_video r video_url →
  handle_item c r w =
  match upload_youtube_audio_with_chapters c video_url "audio/" w with
  | (Return res, w') =>
      (Some (success_record r res (utcnow_iso c w').1), (utcnow_iso c w').2)
  | (Raise e, w') => (Some (failed_record r e), w')
  end.
Proof.
  intros [Hty Hurl].
  unfold handle_item, try_body, lift, getitem, total.
  unfold mbind, io_bind, mret, io_ret.
  rewrite Hty. simpl. rewrite Hurl. simpl.
  destruct (upload_youtube_audio_with_chapters c video_url "audio/" w)
    as [[res|e] w'] eqn:Hup; [|done].
  by rewrite (audio_key_truthy _ _ _ _ Hup).
Qed.

Lemma world_before_0 resources w : world_before c resources 0 w = w.
Proof. done. Qed.

Lemma world_before_S r resources i w :
  world_before c (r :: resources) (S i) w =
  world_before c resources i (handle_item c r w).2.
Proof. unfold world_before. simpl. apply process_resources_world. Qed.

Lemma exception_becomes_failed_record before r after w e w' :
  try_body c r r (process_resources c before [] w).2 = (Raise e, w') →
  process_resources c (before ++ r :: after) [] w =
  process_resources c after
    ((process_resources c before [] w).1 ++ [failed_record r e]) w'.
Proof.
  intros Hraise. rewrite process_resources_app, process_resources_step.
  by rewrite (handle_item_raise _ _ _ _ Hraise).
Qed.

Lemma partial_failure job_id timestamp w r1 r2 r3 r4 r5 u1 u2 u3 u4 u5 e :
  let resources := [r1; r2; r3; r4; r5] in
  is_video r1 u1 → is_video r2 u2 → is_video r3 u3 →
  is_video r4 u4 → is_video r5 u5 →
  returns (acquisition c resources 0 u1 w) →
  returns (acquisition c resources 1 u2 w) →
  acquisition c resources 2 u3 w = Raise e →
  returns (acquisition c resources 3 u4 w) →
  returns (acquisition c resources 4 u5 w) →
  ∃ job, job_of c job_id timestamp resources w = Return job ∧
         num_total job = 5 ∧ num_success job = 4 ∧ num_failed job = 1 ∧
         job_resources job !! 2 = Some (failed_record r3 e).
Proof.
  intros resources V1 V2 V3 V4 V5 [a1 H1] [a2 H2] H3 [a4 H4] [a5 H5].
  rewrite job_of_returns. eexists. split; [done|].
  cbn [num_total num_success num_failed job_resources].
  unfold acquisition, resources in *.
  rewrite ?world_before_S, ?world_before_0 in *.
  rewrite !process_resources_step. cbn [process_resources].
  rewrite (handle_item_video r1 u1 w V1) in *.
  destruct (upload_youtube_audio_with_chapters c u1 "audio/" w)
    as [[b1|?] w1]; [|done].
  cbn [fst snd] in *.
  rewrite (handle_item_video r2 u2 _ V2) in *.
  destruct (upload_youtube_audio_with_chapters c u2 "audio/" _)
    as [[b2|?] w2]; [|done].
  cbn [fst snd] in *.
  rewrite (handle_item_video r3 u3 _ V3) in *.
  destruct (upload_youtube_audio_with_chapters c u3 "audio/" _)
    as [[b3|e3] w3]; [done|].
  cbn [fst snd] in *. injection H3 as ->.
  rewrite (handle_item_video r4 u4 _ V4) in *.
  destruct (upload_youtube_audio_with_chapters c u4 "audio/" _)
    as [[b4|?] w4]; [|done].
  cbn [fst snd] in *.
  rewrite (handle_item_video r5 u5 _ V5) in *.
  destruct (upload_youtube_audio_with_chapters c u5 "audio/" _)
    as [[b5|?] w5]; [|done].
  cbn [fst snd app]. unfold status_count.
  repeat first
    [ rewrite filter_cons_True by
        (first [apply success_record_status | apply failed_record_status_is])
    | rewrite filter_cons_False by
        (rewrite ?(proj2 (success_record_status _ _ _)),
                 ?(proj1 (failed_record_status_is _ _)); done) ].
  by rewrite filter_nil.
Qed.

(** [run_ingestion] hands to the object store the job of the loaded
    manifest, and returns when the store accepts it. *)
Lemma run_ingestion_job discovery_file w resources w3 :
  let id := uuid4 c w in
  let ts := utcnow_iso c id.2 in
  load_discovery c discovery_file ts.2 = (Return resources, w3) →
  ∃ job,
    job_of c id.1 ts.1 resources w3 = Return job ∧
    run_ingestion c discovery_file w =
    match s3_put_metadata c
            ("metadata/ingestion/ingestion_" +:+ ts.1 +:+ ".json") job
            (utcnow_iso c (process_resources c resources [] w3).2).2 with
    | (Return _, w') => (Return job, w')
    | (Raise e, w') => (Raise e, w')
    end.
Proof.
  intros id ts Hload.
  pose proof (job_of_returns id.1 ts.1 resources w3) as Hjob.
  eexists. split; [exact Hjob|].
  unfold job_of in Hjob. simpl in Hjob.
  unfold run_ingestion, total, lift, mbind, io_bind, mret, io_ret.
  fold id. fold ts. rewrite Hload. cbn [fst snd]. rewrite Hjob.
  by destruct (s3_put_metadata c _ _ _) as [[[]|?] ?].
Qed.
End Run.

(** C2. A manifest holding one [pdf] Resource: the job counts it in
    [num_total] and holds no record for it. In general [num_total] is
    the length of the manifest, while the records are one for each
    Resource that is not a [pdf]. *)
Theorem pdf_resource_gets_no_record {W : Type} (c : collaborators W)
  (job_id timestamp : string) (w : W) :
  job_of c job_id timestamp [lecture_pdf] w
  = Return (mkJob job_id timestamp 1 0 0 []) ∧
  ∀ resources, ∃ job,
    job_of c job_id timestamp resources w = Return job ∧
    num_total job = length resources ∧
    num_success job = status_count "success" (job_resources job) ∧
    num_failed job = status_count "failed" (job_resources job) ∧
    Forall2 record_of (filter (λ r, is_pdf r = false) resources)
            (job_resources job).
Proof.
  split.
  - rewrite job_of_returns. cbn [process_resources].
    by rewrite handle_item_pdf.
  - intros resources. rewrite job_of_returns. eexists. split; [done|].
    repeat split.
    destruct (process_resources_records c resources [] w)
      as (new & Hnew & Hall).
    simpl. by rewrite Hnew.
Qed.

(** C3 as stated fails: the reason recorded is the text of the
    exception, which is empty for an exception raised without a
    message. *)
Lemma failed_reason_may_be_empty : ¬ partial_failure_nonempty_reason.
Proof.
  intros Hclaim.
  destruct (Hclaim (list string) (studio (third_fails assertion_error))
              "job" "2025-09-24T20:20:15" []
              (video "v1") (video "v2") (video "v3") (video "v4") (video "v5")
              "https://www.youtube.com/watch?v=v1"
              "https://www.youtube.com/watch?v=v2"
              "https://www.youtube.com/watch?v=v3"
              "https://www.youtube.com/watch?v=v4"
              "https://www.youtube.com/watch?v=v5")
    as (job & rec3 & reason & Hjob & _ & _ & _ & Hrec & _ & Hreason & Hne);
    try (split; reflexivity); try (eexists; reflexivity).
  rewrite job_of_returns in Hjob. injection Hjob as <-.
  vm_compute in Hrec. injection Hrec as <-.
  vm_compute in Hreason. injection Hreason as <-. done.
Qed.

(** C3, amended. An exception raised in the turn of one item is turned,
    at that item, into a record with status [failed] whose reason is the
    text of the exception, and the loop goes on with the items after
    it. For five videos where the acquisition of the third raises and
    the others return, the job has [num_total = 5], [num_success = 4],
    [num_failed = 1], and the third record is that failure record. *)
Theorem item_failure_isolated {W : Type} (c : collaborators W) :
  (∀ before r after w e w',
     try_body c r r (process_resources c before [] w).2 = (Raise e, w') →
     process_resources c (before ++ r :: after) [] w
     = process_resources c after
         ((process_resources c before [] w).1 ++ [failed_record r e]) w' ∧
     failed_record r e !! "status" = Some (VStr "failed") ∧
     failed_record r e !! "reason" = Some (VStr (exc_str e))) ∧
  (∀ job_id timestamp w r1 r2 r3 r4 r5 u1 u2 u3 u4 u5 e,
     let resources := [r1; r2; r3; r4; r5] in
     is_video r1 u1 → is_video r2 u2 → is_video r3 u3 →
     is_video r4 u4 → is_video r5 u5 →
     returns (acquisition c resources 0 u1 w) →
     returns (acquisition c resources 1 u2 w) →
     acquisition c resources 2 u3 w = Raise e →
     returns (acquisition c resources 3 u4 w) →
     returns (acquisition c resources 4 u5 w) →
     ∃ job,
       job_of c job_id timestamp resources w = Return job ∧
       num_total job = 5 ∧ num_success job = 4 ∧ num_failed job = 1 ∧
       job_resources job !! 2 = Some (failed_record r3 e) ∧
       failed_record r3 e !! "status" = Some (VStr "failed") ∧
       failed_record r3 e !! "reason" = Some (VStr (exc_str e))).
Proof.
  split.
  - intros before r after w e w' Hraise.
    split; [by apply exception_becomes_failed_record|].
    apply failed_record_status.
  - intros job_id timestamp w r1 r2 r3 r4 r5 u1 u2 u3 u4 u5 e resources
      V1 V2 V3 V4 V5 H1 H2 H3 H4 H5.
    destruct (partial_failure c job_id timestamp w r1 r2 r3 r4 r5
                u1 u2 u3 u4 u5 e V1 V2 V3 V4 V5 H1 H2 H3 H4 H5)
      as (job & Hjob & Htotal & Hok & Hfailed & Hrec).
    exists job. repeat (split; [done|]). apply failed_record_status.
Qed.

(** Five videos, the third of which is unavailable. *)
Lemma item_failure_isolated_witness :
  ∃ job,
    job_of (studio (third_fails download_error)) "job" "2025-09-24T20:20:15"
      five_videos [] = Return job ∧
    num_total job = 5 ∧ num_success job = 4 ∧ num_failed job = 1 ∧
    job_resources job !! 2 = Some (failed_record (video "v3") download_error) ∧
    failed_record (video "v3") download_error !! "status"
    = Some (VStr "failed") ∧
    failed_record (video "v3") download_error !! "reason"
    = Some (VStr "ERROR: [youtube] v3: Video unavailable").
Proof.
  destruct (item_failure_isolated (studio (third_fails download_error)))
    as [_ Hscenario].
  apply (Hscenario "job" "2025-09-24T20:20:15" []
           (video "v1") (video "v2") (video "v3") (video "v4") (video "v5")
           "https://www.youtube.com/watch?v=v1"
           "https://www.youtube.com/watch?v=v2"
           "https://www.youtube.com/watch?v=v3"
           "https://www.youtube.com/watch?v=v4"
           "https://www.youtube.com/watch?v=v5" download_error);
    try (split; reflexivity); try (eexists; reflexivity); reflexivity.
Defined.

(** C10. The record made for a Resource agrees with it on every field
    outside the outcome fields; so when the Resource has none of the
    outcome fields, every field it arrived with is in the record with
    the same value. This holds of the records of a run, taken in order
    against the Resources that are not [pdf]. *)
Theorem enrichment_preserves_fields {W : Type} (c : collaborators W) :
  (∀ r w e,
     (handle_item c r w).1 = Some e →
     dom r ## outcome_keys →
     ∀ k v, r !! k = Some v → e !! k = Some v) ∧
  (∀ r w e k,
     (handle_item c r w).1 = Some e →
     k ∉ outcome_keys → e !! k = r !! k) ∧
  (∀ resources w,
     Forall2 (λ r e, dom r ## outcome_keys →
                     ∀ k v, r !! k = Some v → e !! k = Some v)
             (filter (λ r, is_pdf r = false) resources)
             (process_resources c resources [] w).1).
Proof.
  assert (∀ r w e, (handle_item c r w).1 = Some e → record_of r e) as Hrec.
  { intros r w e He. destruct (is_pdf r) eqn:Hpdf.
    - by rewrite handle_item_pdf in He.
    - destruct (handle_item_not_pdf c r w Hpdf) as (e' & He' & Hr).
      congruence. }
  split; [|split].
  - intros r w e He Hdisj. apply map_subseteq_spec.
    apply record_of_subseteq; [by apply (Hrec r w)|done].
  - intros r w e k He. apply record_of_frame. by apply (Hrec r w).
  - intros resources w.
    destruct (process_resources_records c resources [] w)
      as (new & -> & Hall). simpl.
    eapply Forall2_impl; [exact Hall|]. intros r e Hr Hdisj.
    apply map_subseteq_spec. by apply record_of_subseteq.
Qed.

Lemma enrichment_preserves_fields_witness :
  ∃ e, (handle_item (studio (third_fails download_error)) (video "v1") []).1
       = Some e ∧
       ∀ k v, video "v1" !! k = Some v → e !! k = Some v.
Proof.
  eexists. split; [reflexivity|].
  destruct (enrichment_preserves_fields (studio (third_fails download_error)))
    as [Hfields _].
  apply (Hfields (video "v1") []); [reflexivity|].
  apply (bool_decide_unpack _). vm_compute. exact I.
Defined.
End IngestFacts.

(** ** More on the site crawler *)
Module CrawlerMore.
Import Py Discover Fixtures Notions CrawlerFacts.

Lemma Forall2_elem_r {A B} (P : A → B → Prop) l k y :
  Forall2 P l k → y ∈ k → ∃ x, x ∈ l ∧ P x y.
Proof.
  intros Hall [i Hi]%list_elem_of_lookup.
  destruct (Forall2_lookup_r _ _ _ _ _ Hall Hi) as (x & Hx & HP).
  exists x. split; [|done]. by eapply list_elem_of_lookup_2.
Qed.

Lemma Forall2_elem_l {A B} (P : A → B → Prop) l k x :
  Forall2 P l k → x ∈ l → ∃ y, y ∈ k ∧ P x y.
Proof.
  intros Hall [i Hi]%list_elem_of_lookup.
  destruct (Forall2_lookup_l _ _ _ _ _ Hall Hi) as (y & Hy & HP).
  exists y. split; [|done]. by eapply list_elem_of_lookup_2.
Qed.

Lemma prefix_append_same (a p s : string) :
  String.prefix (a +:+ p) (a +:+ s) = String.prefix p s.
Proof.
  induction a as [|c a IH]; [done|].
  change (String.prefix (String c (a +:+ p)) (String c (a +:+ s))
          = String.prefix p s).
  cbn [String.prefix]. by destruct (Ascii.ascii_dec c c).
Qed.

Section Crawl.
Variable get : string → outcome (list anchor).
Variable utcnow_iso : nat → string.
Variable course_handle : string.

(** Induction over a crawl, page by page: [P] holds of the state a call
    leaves when it holds at the start, survives a failed fetch and a
    fetched page with its documents, and the pages called satisfy [Q]. *)
Lemma scrape_page_invariant (Q : string → Prop) (P : crawl → Prop) :
  (∀ url st e, Q url → url ∉ visited st → P st → get url = Raise e →
     P (visit url st)) →
  (∀ url st soup, Q url → url ∉ visited st → P st → get url = Return soup →
     P (find_pdfs utcnow_iso course_handle url (find_all_a_href soup)
          (visit url st))) →
  (∀ url soup href text, Q url → get url = Return soup →
     (href, text) ∈ find_all_a_href soup → is_subpage href = true →
     Q (ocw_origin +:+ href)) →
  ∀ fuel url st,
    Q url → P st → P (scrape_page get utcnow_iso course_handle fuel url st).2.
Proof.
  intros Hfail Hpage Hlink.
  assert (∀ call links st,
            (∀ u s, Q u → P s → P (call u s).2) →
            (∀ href text, (href, text) ∈ links → is_subpage href = true →
               Q (ocw_origin +:+ href)) →
            P st → P (recurse_subpages call links st).2) as Hrec.
  { intros call links. induction links as [|[href text] links IH];
      intros st Hcall Hin Hst; simpl; [done|].
    assert (∀ h t, (h, t) ∈ links → is_subpage h = true →
              Q (ocw_origin +:+ h)) as Hin'
      by (intros h t ?; apply (Hin h t); by right).
    destruct (is_subpage href) eqn:Hsub; [|by apply IH].
    case_decide; [by apply IH|].
    assert (P (call (ocw_origin +:+ href) st).2) as Hst'.
    { apply Hcall; [|done]. apply (Hin href text); [left|done]. }
    destruct (call _ st) as [[] st']; simpl in *; [by apply IH|done]. }
  induction fuel as [|fuel IH]; intros url st HQ Hst; simpl; [done|].
  case_decide as Hnew; [done|].
  destruct (get url) as [soup|e] eqn:Hget; simpl.
  - apply Hrec; [exact IH| |by apply Hpage].
    intros href text. by apply (Hlink url soup).
  - by apply (Hfail url st e).
Qed.

Lemma find_pdfs_fetched url links st :
  fetched (find_pdfs utcnow_iso course_handle url links st) = fetched st.
Proof.
  revert st. induction links as [|[href text] links IH]; intros st; simpl;
    [done|].
  destruct (endswith href ".pdf"); rewrite IH; done.
Qed.

Lemma stays_on_origin fuel :
  Forall on_ocw_courses
         (fetched (scrape_run get utcnow_iso course_handle fuel).2).
Proof.
  apply (scrape_page_invariant on_ocw_courses
           (λ st, Forall on_ocw_courses (fetched st))).
  - intros url st e HQ _ Hst _. simpl. apply Forall_app. split; [done|].
    by constructor.
  - intros url st soup HQ _ Hst _. rewrite find_pdfs_fetched. simpl.
    apply Forall_app. split; [done|]. by constructor.
  - intros url soup href text _ _ _ Hsub. unfold is_subpage in Hsub.
    apply andb_true_iff in Hsub as [Hstart _].
    unfold on_ocw_courses, startswith in *.
    change "https://ocw.mit.edu/courses/" with (ocw_origin +:+ "/courses/").
    by rewrite prefix_append_same.
  - unfold on_ocw_courses, startswith, base_url. apply prefix_app.
  - constructor.
Qed.

Lemma visited_reachable fuel :
  ∀ u, u ∈ visited (scrape_run get utcnow_iso course_handle fuel).2 →
       reachable get course_handle u.
Proof.
  apply (scrape_page_invariant (reachable get course_handle)
           (λ st, ∀ u, u ∈ visited st → reachable get course_handle u)).
  - intros url st e HQ _ Hst _ u. simpl.
    rewrite elem_of_union, elem_of_singleton.
    intros [->|?]; [done|by apply Hst].
  - intros url st soup HQ _ Hst _ u. rewrite find_pdfs_visited. simpl.
    rewrite elem_of_union, elem_of_singleton.
    intros [->|?]; [done|by apply Hst].
  - intros url soup href text HQ Hget Hin Hsub. by eapply reachable_link.
  - constructor.
  - intros u Hu. simpl in Hu. set_solver.
Qed.

Lemma links_visited_mono u st st' :
  visited st ⊆ visited st' →
  links_visited get u st → links_visited get u st'.
Proof. intros Hsub H soup href text ???. apply Hsub. by eapply H. Qed.

Lemma recurse_subpages_explores call links st :
  explores get call →
  (recurse_subpages call links st).1 = true →
  visited st ⊆ visited (recurse_subpages call links st).2 ∧
  (∀ href text, (href, text) ∈ links → is_subpage href = true →
     ocw_origin +:+ href ∈ visited (recurse_subpages call links st).2) ∧
  ∀ u, u ∈ visited (recurse_subpages call links st).2 → u ∉ visited st →
       links_visited get u (recurse_subpages call links st).2.
Proof.
  intros Hcall. revert st.
  induction links as [|[href text] links IH]; intros st; simpl.
  - intros _. split; [done|]. split; [|done].
    intros ?? Hin. by apply elem_of_nil in Hin.
  - destruct (is_subpage href) eqn:Hsub.
    + case_decide as Hvis.
      * intros Hfin. destruct (IH st Hfin) as (Hmono & Hlinks & Hnew).
        split; [done|]. split; [|done].
        intros h t [[= -> ->]|Hin]%elem_of_cons Hs; [by apply Hmono|].
        by apply (Hlinks h t).
      * destruct (call (ocw_origin +:+ href) st) as [ok st1] eqn:Ecall.
        simpl. destruct ok; [|done]. intros Hfin.
        destruct (Hcall (ocw_origin +:+ href) st) as (Hin1 & Hmono1 & Hnew1);
          [by rewrite Ecall|]. rewrite Ecall in *. simpl in *.
        destruct (IH st1 Hfin) as (Hmono & Hlinks & Hnew).
        split; [set_solver|]. split.
        -- intros h t [[= -> ->]|Hin]%elem_of_cons Hs; [by apply Hmono|].
           by apply (Hlinks h t).
        -- intros u Hu Hnot. destruct (decide (u ∈ visited st1)) as [Hu1|Hu1].
           ++ eapply links_visited_mono; [exact Hmono|]. by apply Hnew1.
           ++ by apply Hnew.
    + intros Hfin. destruct (IH st Hfin) as (Hmono & Hlinks & Hnew).
      split; [done|]. split; [|done].
      intros h t [[= -> ->]|Hin]%elem_of_cons Hs; [congruence|].
      by apply (Hlinks h t).
Qed.

Lemma scrape_page_explores fuel :
  explores get (scrape_page get utcnow_iso course_handle fuel).
Proof.
  induction fuel as [|fuel IH]; intros url st; simpl; [done|].
  case_decide as Hvis.
  - intros _. simpl. split; [done|]. split; [done|]. intros u ??. done.
  - destruct (get url) as [soup|e] eqn:Hget; simpl.
    + intros Hfin.
      destruct (recurse_subpages_explores _ _ _ IH Hfin)
        as (Hmono & Hlinks & Hnew).
      rewrite find_pdfs_visited in Hmono, Hnew. simpl in Hmono, Hnew.
      split; [set_solver|]. split; [set_solver|].
      intros u Hu Hnot. destruct (decide (u = url)) as [->|Hne].
      * intros soup' href text Hget' Hin Hsub.
        rewrite Hget in Hget'. injection Hget' as <-.
        by apply (Hlinks href text).
      * apply Hnew; [done|]. set_solver.
    + intros _. split; [set_solver|]. split; [set_solver|].
      intros u Hu Hnot soup. assert (u = url) as -> by set_solver.
      by rewrite Hget.
Qed.

Lemma pdf_anchor_of_mono st st' url link :
  visited st ⊆ visited st' →
  pdf_anchor_of get st url link → pdf_anchor_of get st' url link.
Proof. intros Hsub [Hin Hrest]. split; [by apply Hsub|done]. Qed.

Lemma results_exact_run fuel :
  results_exact get course_handle
    (scrape_run get utcnow_iso course_handle fuel).2.
Proof.
  apply (scrape_page_invariant (λ _, True) (results_exact get course_handle));
    try done.
  - intros url st e _ Hnew [Hsound Hcomplete] Hget. split; simpl.
    + eapply Forall_impl; [exact Hsound|]. intros r (u & link & Ha & He).
      exists u, link. split; [|done].
      eapply pdf_anchor_of_mono; [|exact Ha]. simpl. set_solver.
    + intros u link [Hin (soup & Hsoup & Hrest)]. simpl in Hin.
      apply elem_of_union in Hin as [Hin|Hin].
      * apply elem_of_singleton in Hin as ->. congruence.
      * apply Hcomplete. split; [done|]. by exists soup.
  - intros url st soup _ Hnew [Hsound Hcomplete] Hget.
    destruct (find_pdfs_results utcnow_iso course_handle url
                (find_all_a_href soup) (visit url st))
      as (emitted & Hres & Hall).
    set (st' := find_pdfs utcnow_iso course_handle url
                  (find_all_a_href soup) (visit url st)) in *.
    assert (visited st' = {[url]} ∪ visited st) as Hvis
      by (unfold st'; by rewrite find_pdfs_visited).
    assert (visited st ⊆ visited st') as Hmono by (rewrite Hvis; set_solver).
    split.
    + rewrite Hres. simpl. apply Forall_app. split.
      * eapply Forall_impl; [exact Hsound|]. intros r (u & link & Ha & He).
        exists u, link. split; [|done]. by eapply pdf_anchor_of_mono.
      * apply Forall_forall. intros r Hr.
        destruct (Forall2_elem_r _ _ _ _ Hall Hr) as (link & Hlink & He).
        apply list_elem_of_filter in Hlink as [Hpdf Hlink].
        exists url, link. split; [|done]. split; [rewrite Hvis; set_solver|].
        by exists soup.
    + intros u link [Hin (soup' & Hsoup & Hlink & Hpdf)].
      rewrite Hvis in Hin. apply elem_of_union in Hin as [Hin|Hin].
      * apply elem_of_singleton in Hin as ->.
        rewrite Hget in Hsoup. injection Hsoup as <-.
        assert (link ∈ filter (λ l, endswith l.1 ".pdf" = true)
                  (find_all_a_href soup)) as Hf
          by (by apply list_elem_of_filter).
        destruct (Forall2_elem_l _ _ _ _ Hall Hf) as (r & Hr & He).
        exists r. split; [|done]. rewrite Hres. simpl.
        apply elem_of_app. by right.
      * destruct (Hcomplete u link) as (r & Hr & He).
        { split; [done|]. by exists soup'. }
        exists r. split; [|done]. rewrite Hres. simpl.
        apply elem_of_app. by left.
  - split; [constructor|]. intros u link [Hin _]. simpl in Hin. set_solver.
Qed.
End Crawl.

(** X1. A crawl visits only pages that can be reached from the seed
    through sub-page links of fetched pages, and a crawl that runs to
    its end has visited every such page. *)
Theorem crawl_visits_reachable
  (get : string → outcome (list anchor)) (utcnow_iso : nat → string)
  (course_handle : string) (fuel : nat) :
  let r := scrape_run get utcnow_iso course_handle fuel in
  (∀ u, u ∈ visited r.2 → reachable get course_handle u) ∧
  (r.1 = true → ∀ u, reachable get course_handle u → u ∈ visited r.2).
Proof.
  intros r. split; [apply visited_reachable|].
  intros Hfin.
  destruct (scrape_page_explores get utcnow_iso course_handle fuel
              (base_url course_handle) crawl_start Hfin)
    as (Hseed & _ & Hclosed).
  induction 1 as [|url soup href text Hreach IH Hget Hin Hsub]; [done|].
  assert (url ∉ visited crawl_start) as Hnot by (simpl; set_solver).
  by apply (Hclosed url IH Hnot soup href text).
Qed.

(** X2. Every request of a crawl goes to a URL beginning with
    [https://ocw.mit.edu/courses/], whatever the pages link to. *)
Theorem crawl_requests_stay_on_ocw
  (get : string → outcome (list anchor)) (utcnow_iso : nat → string)
  (course_handle : string) (fuel : nat) :
  Forall on_ocw_courses
         (fetched (scrape_run get utcnow_iso course_handle fuel).2).
Proof. apply stays_on_origin. Qed.

(** X3. The results of a crawl are those of the anchors ending in
    [.pdf] on the visited pages whose fetch returned: each result is the
    Resource emitted for such an anchor, with that page as [page_url],
    and each such anchor has its Resource among the results. A page whose
    fetch raised gives no result. *)
Theorem crawl_results_exact
  (get : string → outcome (list anchor)) (utcnow_iso : nat → string)
  (course_handle : string) (fuel : nat) :
  let st := (scrape_run get utcnow_iso course_handle fuel).2 in
  Forall (λ r, ∃ url link, pdf_anchor_of get st url link ∧
                           emitted_for course_handle url link r)
         (results st) ∧
  (∀ url link, pdf_anchor_of get st url link →
     ∃ r, r ∈ results st ∧ emitted_for course_handle url link r) ∧
  (∀ url e r, get url = Raise e → r ∈ results st →
     r !! "page_url" ≠ Some (VStr url)).
Proof.
  intros st.
  destruct (results_exact_run get utcnow_iso course_handle fuel)
    as [Hsound Hcomplete].
  split; [exact Hsound|]. split; [exact Hcomplete|].
  intros url e r Hget Hr Hpage.
  rewrite Forall_forall in Hsound.
  destruct (Hsound r Hr) as (u & link & [_ (soup & Hsoup & _)] & He).
  destruct He as (_ & _ & _ & _ & Hp). rewrite Hp in Hpage.
  injection Hpage as ->. congruence.
Qed.
End CrawlerMore.

(** ** Splitting and joining strings *)
Module StringFacts.
Import Py.

Lemma append_assoc (a b c : string) : (a +:+ b) +:+ c = a +:+ (b +:+ c).
Proof.
  induction a as [|x a IH]; [done|].
  change (String x ((a +:+ b) +:+ c) = String x (a +:+ (b +:+ c))).
  by f_equal.
Qed.

Lemma append_nil_r (a : string) : a +:+ "" = a.
Proof.
  induction a as [|x a IH]; [done|].
  change (String x (a +:+ "") = String x a). by f_equal.
Qed.

Lemma split_go_nonempty sep skip cur s : split_go sep skip cur s ≠ [].
Proof.
  revert skip cur. induction s as [|c s IH]; intros skip cur; [done|].
  cbn [split_go]. destruct skip; [|apply IH].
  destruct (String.prefix sep (String c s)); [done|apply IH].
Qed.

Lemma concat_cons sep x xs :
  xs ≠ [] → String.concat sep (x :: xs) = x +:+ sep +:+ String.concat sep xs.
Proof. by destruct xs. Qed.

Lemma prefix_nil s : String.prefix "" s = true.
Proof. by destruct s. Qed.

Lemma prefix_one a c s :
  String.prefix (String a "") (String c s) = bool_decide (a = c).
Proof.
  cbn [String.prefix]. destruct (Ascii.ascii_dec a c) as [->|Hne].
  - rewrite prefix_nil. by rewrite bool_decide_eq_true_2.
  - by rewrite bool_decide_eq_false_2.
Qed.

Lemma prefix_cons a p c s :
  String.prefix (String a p) (String c s) = bool_decide (a = c) && String.prefix p s.
Proof.
  cbn [String.prefix]. destruct (Ascii.ascii_dec a c) as [->|Hne].
  - by rewrite bool_decide_eq_true_2.
  - by rewrite bool_decide_eq_false_2.
Qed.

(** ["/".join(s.split("/")) == s] *)
Lemma split_join_go cur s :
  String.concat "/" (split_go "/" 0 cur s) = cur +:+ s.
Proof.
  revert cur. induction s as [|c s IH]; intros cur;
    [by rewrite append_nil_r|].
  cbn [split_go]. rewrite prefix_one. case_bool_decide as E.
  - subst c. rewrite concat_cons by apply split_go_nonempty.
    simpl String.length. simpl Nat.sub. by rewrite IH.
  - rewrite IH, append_assoc. done.
Qed.

Lemma split_join s : String.concat "/" (split s "/") = s.
Proof. apply split_join_go. Qed.

Lemma contains_cons_false needle c s :
  contains needle (String c s) = false →
  String.prefix needle (String c s) = false ∧ contains needle s = false.
Proof.
  cbn [contains]. destruct (String.prefix needle (String c s)); [done|]. done.
Qed.

Lemma split_go_no_sep cur a s :
  contains "/" a = false →
  split_go "/" 0 cur (a +:+ s) = split_go "/" 0 (cur +:+ a) s.
Proof.
  revert cur. induction a as [|c a IH]; intros cur Hno.
  - by rewrite append_nil_r.
  - apply contains_cons_false in Hno as [Hp Hno].
    change (String c a +:+ s) with (String c (a +:+ s)). cbn [split_go].
    rewrite prefix_one in Hp. rewrite prefix_one, Hp.
    rewrite IH by done. by rewrite append_assoc.
Qed.

Lemma split_first bucket key :
  contains "/" bucket = false →
  split (bucket +:+ "/" +:+ key) "/" = bucket :: split key "/".
Proof.
  intros Hno. unfold split. rewrite split_go_no_sep by done.
  change ("/" +:+ key) with (String "/" key). cbn [split_go].
  by rewrite prefix_one.
Qed.

Lemma split_no_sep name :
  contains "/" name = false → split name "/" = [name].
Proof.
  intros Hno. unfold split.
  rewrite <- (append_nil_r name) at 1. by rewrite split_go_no_sep by done.
Qed.

Lemma last_split_go cur a s :
  last (split_go "/" 0 cur (a +:+ "/" +:+ s)) = last (split_go "/" 0 "" s).
Proof.
  revert cur. induction a as [|c a IH]; intros cur.
  - change ("" +:+ "/" +:+ s) with (String "/" s). cbn [split_go].
    rewrite prefix_one. rewrite bool_decide_eq_true_2 by done.
    simpl String.length. simpl Nat.sub.
    pose proof (split_go_nonempty "/" 0 "" s).
    by destruct (split_go "/" 0 "" s).
  - change (String c a +:+ "/" +:+ s) with (String c (a +:+ "/" +:+ s)).
    cbn [split_go]. rewrite prefix_one. case_bool_decide as E.
    + simpl String.length. simpl Nat.sub.
      pose proof (split_go_nonempty "/" 0 "" (a +:+ "/" +:+ s)).
      destruct (split_go "/" 0 "" (a +:+ "/" +:+ s)) eqn:E2; [done|].
      rewrite <- E2. rewrite last_cons. rewrite IH.
      pose proof (split_go_nonempty "/" 0 "" s).
      destruct (last (split_go "/" 0 "" s)) eqn:E3; [done|].
      apply last_None in E3. done.
    + apply IH.
Qed.

(** the last piece of [dir/name] is [name] *)
Lemma last_piece_basename dir name :
  contains "/" name = false →
  last_piece (split (dir +:+ "/" +:+ name) "/") = name.
Proof.
  intros Hno. unfold last_piece, split. rewrite last_split_go.
  fold (split name "/"). by rewrite split_no_sep.
Qed.

Lemma split_go_v_no_eq cur vid :
  contains "=" vid = false → split_go "v=" 0 cur vid = [cur +:+ vid].
Proof.
  revert cur. induction vid as [|c vid IH]; intros cur Hno.
  - by rewrite append_nil_r.
  - apply contains_cons_false in Hno as [Hp Hno].
    cbn [split_go].
    assert (String.prefix "v=" (String c vid) = false) as ->.
    { destruct vid as [|d vid].
      - cbn [String.prefix]. by destruct (Ascii.ascii_dec "v" c).
      - apply contains_cons_false in Hno as [Hd _].
        rewrite prefix_cons, Hd. apply andb_false_r. }
    rewrite IH by done. by rewrite append_assoc.
Qed.

Lemma last_split_v skip cur p vid :
  contains "=" vid = false → skip ≤ String.length p →
  last (split_go "v=" skip cur (p +:+ "v=" +:+ vid)) = Some vid.
Proof.
  intros Hno. revert skip cur. induction p as [|c p IH]; intros skip cur Hskip.
  - destruct skip; [|simpl in Hskip; lia].
    change ("" +:+ "v=" +:+ vid) with (String "v" (String "=" vid)).
    cbn [split_go]. rewrite !prefix_cons, prefix_nil.
    rewrite !bool_decide_eq_true_2 by done.
    cbn [andb String.length Nat.sub]. by rewrite split_go_v_no_eq.
  - change (String c p +:+ "v=" +:+ vid) with (String c (p +:+ "v=" +:+ vid)).
    cbn [split_go]. destruct skip as [|skip].
    + destruct (String.prefix "v=" (String c (p +:+ "v=" +:+ vid))) eqn:E.
      * cbn [String.length Nat.sub].
        assert (1 ≤ String.length p) as Hp.
        { destruct p as [|d p]; [|simpl; lia].
          exfalso.
          change ("" +:+ "v=" +:+ vid) with (String "v" (String "=" vid)) in E.
          rewrite !prefix_cons in E.
          rewrite (bool_decide_eq_false_2 ("="%char = "v"%char)) in E by done.
          by rewrite andb_false_r in E. }
        pose proof (split_go_nonempty "v=" 1 "" (p +:+ "v=" +:+ vid)) as Hne.
        destruct (split_go "v=" 1 "" (p +:+ "v=" +:+ vid)) as [|x l] eqn:E2;
          [done|].
        rewrite last_cons, <- E2, (IH 1 "" Hp). done.
      * apply IH. lia.
    + apply IH. simpl in Hskip. lia.
Qed.

Lemma video_id_round_trip vid :
  contains "=" vid = false →
  last_piece (split ("https://www.youtube.com/watch?v=" +:+ vid) "v=") = vid.
Proof.
  intros Hno. unfold split, last_piece.
  change ("https://www.youtube.com/watch?v=" +:+ vid)
    with ("https://www.youtube.com/watch?" +:+ "v=" +:+ vid).
  by rewrite last_split_v by (done || (simpl; lia)).
Qed.
End StringFacts.

(** ** The documents a crawl emits *)
Module EmissionFacts.
Import Py Discover Fixtures MoreFixtures Notions.
Import CrawlerFacts CaseFacts CrawlerMore StringFacts.

Lemma rev_app_spec s1 s2 : String.rev_app s1 s2 = String.rev s1 +:+ s2.
Proof.
  unfold String.rev. revert s2.
  induction s1 as [|c s1 IH]; intros s2; simpl; [done|].
  rewrite IH, (IH (String c "")). by rewrite append_assoc.
Qed.

Lemma rev_cons c s : String.rev (String c s) = String.rev s +:+ String c "".
Proof. unfold String.rev at 1. simpl. apply rev_app_spec. Qed.

Lemma rev_append a b : String.rev (a +:+ b) = String.rev b +:+ String.rev a.
Proof.
  induction a as [|c a IH].
  - change ("" +:+ b) with b. change (String.rev "") with "".
    by rewrite append_nil_r.
  - change (String c a +:+ b) with (String c (a +:+ b)).
    by rewrite !rev_cons, IH, append_assoc.
Qed.

Lemma rev_involutive s : String.rev (String.rev s) = s.
Proof.
  induction s as [|c s IH]; [done|].
  by rewrite rev_cons, rev_append, IH.
Qed.

Lemma endswith_spec s p : endswith s p = true ↔ ∃ stem, s = stem +:+ p.
Proof.
  unfold endswith. rewrite prefix_split. split.
  - intros [r Hr]. exists (String.rev r).
    by rewrite <- (rev_involutive s), Hr, rev_append, rev_involutive.
  - intros [stem ->]. exists (String.rev stem). apply rev_append.
Qed.

Lemma endswith_other_suffix stem :
  endswith (stem +:+ ".PDF") ".pdf" = false ∧
  endswith (stem +:+ ".docx") ".pdf" = false.
Proof.
  unfold endswith. rewrite !rev_append. split.
  - change (String.rev ".PDF" +:+ String.rev stem)
      with (String "F" ("DP." +:+ String.rev stem)).
    change (String.rev ".pdf") with "fdp.". by rewrite prefix_cons.
  - change (String.rev ".docx" +:+ String.rev stem)
      with (String "x" ("cod." +:+ String.rev stem)).
    change (String.rev ".pdf") with "fdp.". by rewrite prefix_cons.
Qed.

Lemma prefix_append_short p x y :
  String.length p ≤ String.length x →
  String.prefix p (x +:+ y) = String.prefix p x.
Proof.
  revert x. induction p as [|c p IH]; intros x Hlen.
  - by rewrite !prefix_nil.
  - destruct x as [|d x]; [simpl in Hlen; lia|].
    change (String d x +:+ y) with (String d (x +:+ y)).
    rewrite !prefix_cons, IH; [done|]. simpl in Hlen. lia.
Qed.

Lemma endswith_pdf_full_url href :
  endswith (pdf_full_url href) ".pdf" = endswith href ".pdf".
Proof.
  unfold pdf_full_url. destruct (startswith href "http"); [done|].
  unfold endswith. rewrite rev_append.
  change (String.rev ".pdf") with "fdp.".
  change (String.rev ocw_origin) with "ude.tim.wco//:sptth".
  destruct (String.rev href) as [|a [|b [|c [|d x]]]].
  - done.
  - change (String a "" +:+ ?y) with (String a y).
    rewrite !prefix_cons. by destruct (bool_decide ("f"%char = a)).
  - change (String a (String b "") +:+ ?y) with (String a (String b y)).
    rewrite !prefix_cons.
    by destruct (bool_decide ("f"%char = a)), (bool_decide ("d"%char = b)).
  - change (String a (String b (String c "")) +:+ ?y)
      with (String a (String b (String c y))).
    rewrite !prefix_cons.
    by destruct (bool_decide ("f"%char = a)), (bool_decide ("d"%char = b)),
         (bool_decide ("p"%char = c)).
  - apply prefix_append_short. simpl. lia.
Qed.

Lemma is_absolute_http href :
  is_absolute href = true → startswith href "http" = true.
Proof.
  unfold is_absolute, startswith. intros [H|H]%orb_true_iff;
    apply prefix_split in H as [r ->]; apply prefix_split.
  - exists ("://" +:+ r). done.
  - exists ("s://" +:+ r). done.
Qed.

Lemma site_relative_full_url href :
  startswith href "/" = true →
  pdf_full_url href = ocw_origin +:+ href ∧
  is_absolute (pdf_full_url href) = true.
Proof.
  unfold startswith. intros [r ->]%prefix_split.
  assert (pdf_full_url ("/" +:+ r) = ocw_origin +:+ "/" +:+ r) as -> by done.
  split; [done|]. unfold is_absolute, startswith.
  apply orb_true_iff. right. apply prefix_split.
  by exists ("ocw.mit.edu" +:+ "/" +:+ r).
Qed.

Section Emission.
Variable get : string → outcome (list anchor).
Variable utcnow_iso : nat → string.
Variable course_handle : string.

Lemma pdf_anchors_snoc urls url :
  pdf_anchors get (urls ++ [url]) =
  pdf_anchors get urls ++
  match get url with
  | Return soup =>
      pair url <$> filter (λ link, endswith link.1 ".pdf" = true)
                          (find_all_a_href soup)
  | Raise _ => []
  end.
Proof.
  unfold pdf_anchors. rewrite bind_app. f_equal. simpl.
  by rewrite app_nil_r.
Qed.

Lemma results_in_order fuel :
  let st := (scrape_run get utcnow_iso course_handle fuel).2 in
  Forall2 (λ a r, emitted_for course_handle a.1 a.2 r)
          (pdf_anchors get (fetched st)) (results st).
Proof.
  apply (scrape_page_invariant get utcnow_iso course_handle (λ _, True)
           (λ st, Forall2 (λ a r, emitted_for course_handle a.1 a.2 r)
                          (pdf_anchors get (fetched st)) (results st)));
    try done.
  - intros url st e _ _ Hst Hget. simpl.
    rewrite pdf_anchors_snoc, Hget. by rewrite app_nil_r.
  - intros url st soup _ _ Hst Hget.
    destruct (find_pdfs_results utcnow_iso course_handle url
                (find_all_a_href soup) (visit url st))
      as (emitted & -> & Hall).
    rewrite find_pdfs_fetched. simpl. rewrite pdf_anchors_snoc, Hget.
    apply Forall2_app; [done|]. by apply Forall2_fmap_l.
Qed.

Lemma anchor_emitted_iff fuel url soup href text :
  let st := (scrape_run get utcnow_iso course_handle fuel).2 in
  url ∈ visited st → get url = Return soup →
  (href, text) ∈ find_all_a_href soup →
  ((∃ r, r ∈ results st ∧ emitted_for course_handle url (href, text) r) ↔
   endswith href ".pdf" = true).
Proof.
  intros st Hvis Hget Hin.
  pose proof (results_in_order fuel) as Hall. fold st in Hall. simpl in Hall.
  split.
  - intros (r & Hr & He).
    destruct (Forall2_elem_r _ _ _ _ Hall Hr) as ([u l] & Hul & He').
    destruct He as (Hurl & _). destruct He' as (Hurl' & _). simpl in *.
    rewrite Hurl in Hurl'. injection Hurl' as Heq.
    unfold pdf_anchors in Hul. apply list_elem_of_bind in Hul as (u' & Hl & _).
    destruct (get u') as [soup'|]; [|by apply elem_of_nil in Hl].
    apply list_elem_of_fmap in Hl as (l' & [= -> ->] & Hl').
    apply list_elem_of_filter in Hl' as [Hpdf _].
    by rewrite <- endswith_pdf_full_url, Heq, endswith_pdf_full_url.
  - intros Hpdf.
    assert ((url, (href, text)) ∈ pdf_anchors get (fetched st)) as Ha.
    { unfold pdf_anchors. apply list_elem_of_bind. exists url. split.
      - rewrite Hget. apply list_elem_of_fmap. exists (href, text).
        split; [done|]. by apply list_elem_of_filter.
      - by apply (fetch_log_ok_run get utcnow_iso course_handle fuel). }
    destruct (Forall2_elem_l _ _ _ _ Hall Ha) as (r & Hr & He). eauto.
Qed.
End Emission.

(** C9 as stated fails: a relative href that begins with [http] is
    kept as it is, and the url of its Resource is not absolute. *)
Lemma relative_href_kept : ¬ emitted_urls_absolute.
Proof.
  intros Hclaim.
  specialize (Hclaim (site_of relative_link_pages) tick "c" 2).
  apply Forall_cons in Hclaim as [(url & Hurl & Habs) _].
  vm_compute in Hurl. injection Hurl as <-. discriminate Habs.
Qed.

(** C9, amended. In every run of the crawl, cut off at any depth: for an
    anchor of a crawled page, a visited page whose fetch returned, a
    Resource is emitted for it exactly when its href ends in [.pdf];
    the results are, page by page in the order of the requests and in
    document order within a page, one Resource for each such anchor. A
    href ends in [.pdf] when it is some text followed by [.pdf]: one
    ending in [.PDF] or [.docx] does not. Every Resource has type [pdf]
    and a url that begins with [http]: the href itself when the href
    begins with [http], the site origin followed by the href otherwise.
    So an absolute href is kept, and a site-relative one, beginning with
    a slash, gives the absolute url under the site origin. *)
Theorem crawled_pdf_anchors_emitted
  (get : string → outcome (list anchor)) (utcnow_iso : nat → string)
  (course_handle : string) (fuel : nat) :
  let st := (scrape_run get utcnow_iso course_handle fuel).2 in
  (∀ url soup href text,
     url ∈ visited st → get url = Return soup →
     (href, text) ∈ find_all_a_href soup →
     ((∃ r, r ∈ results st ∧ emitted_for course_handle url (href, text) r) ↔
      endswith href ".pdf" = true)) ∧
  Forall2 (λ a r, emitted_for course_handle a.1 a.2 r)
          (pdf_anchors get (fetched st)) (results st) ∧
  (∀ href, (endswith href ".pdf" = true ↔ ∃ stem, href = stem +:+ ".pdf") ∧
           endswith (href +:+ ".PDF") ".pdf" = false ∧
           endswith (href +:+ ".docx") ".pdf" = false) ∧
  Forall pdf_record (results st) ∧
  (∀ href,
     pdf_full_url href
     = (if startswith href "http" then href else ocw_origin +:+ href) ∧
     (is_absolute href = true → pdf_full_url href = href) ∧
     (startswith href "/" = true →
      pdf_full_url href = ocw_origin +:+ href ∧
      is_absolute (pdf_full_url href) = true)).
Proof.
  intros st. split; [|split; [|split; [|split]]].
  - intros url soup href text. apply anchor_emitted_iff.
  - apply results_in_order.
  - intros href. split; [apply endswith_spec|apply endswith_other_suffix].
  - apply results_are_pdf_records.
  - intros href. split; [done|]. split; [|apply site_relative_full_url].
    intros Habs. unfold pdf_full_url. by rewrite is_absolute_http.
Qed.
End EmissionFacts.

(** ** More on the classifier and the video-provider chain *)
Module ProviderMore.
Import Py Discover Fixtures MoreFixtures Notions PyFacts CrawlerFacts.
Import CaseFacts ProviderFacts StringFacts.

Lemma lower_app a b : lower (a +:+ b) = lower a +:+ lower b.
Proof.
  induction a as [|c a IH]; [done|].
  change (String (ascii_lower c) (lower (a +:+ b))
          = String (ascii_lower c) (lower a +:+ lower b)). by f_equal.
Qed.

Lemma ascii_lower_idemp c : ascii_lower (ascii_lower c) = ascii_lower c.
Proof. by destruct c as [[] [] [] [] [] [] [] []]. Qed.

Lemma lower_idemp s : lower (lower s) = lower s.
Proof.
  induction s as [|c s IH]; [done|]. simpl. by rewrite ascii_lower_idemp, IH.
Qed.

Lemma contains_middle needle a b :
  contains needle (a +:+ needle +:+ b) = true.
Proof. apply contains_app_r, contains_here. Qed.

(** X4. The classifier answers [slides], [notes] or [unknown], and does
    not depend on the case of the text; a text with "slide" in it, in
    any case and anywhere, is [slides] whatever else it holds; a text
    with "note" or "lecture" in it is [notes] unless it is [slides]. *)
Theorem classify_pdf_cases (link_text : string) :
  classify_pdf link_text ∈ ["slides"; "notes"; "unknown"] ∧
  classify_pdf (lower link_text) = classify_pdf link_text ∧
  (∀ a w b, lower w = "slide" → classify_pdf (a +:+ w +:+ b) = "slides") ∧
  (∀ a w b, lower w = "note" ∨ lower w = "lecture" →
     classify_pdf (a +:+ w +:+ b) ∈ ["slides"; "notes"]).
Proof.
  split; [|split; [|split]].
  - unfold classify_pdf. destruct (contains "slide" _); [set_solver|].
    destruct (_ || _); set_solver.
  - unfold classify_pdf. by rewrite lower_idemp.
  - intros a w b Hw. unfold classify_pdf.
    by rewrite !lower_app, Hw, contains_middle.
  - intros a w b Hw. unfold classify_pdf. rewrite !lower_app.
    destruct (contains "slide" _); [set_solver|].
    destruct Hw as [-> | ->]; rewrite contains_middle;
      rewrite ?orb_true_r; simpl; set_solver.
Qed.

Section Enumerator.
Variable playlists_list : playlists_request → outcome playlists_response.

Lemma loop_endless fuel channel_id playlists token requests :
  (∀ rq, ∃ res, playlists_list rq = Return res ∧
                truthy_opt (rs_nextPageToken res) = true) →
  ∃ requests',
    list_all_playlists_loop playlists_list fuel channel_id playlists token
      requests = (None, requests ++ requests') ∧
    length requests' = fuel.
Proof.
  intros Hendless. revert playlists token requests.
  induction fuel as [|fuel IH]; intros playlists token requests; simpl.
  - exists []. by rewrite app_nil_r.
  - destruct (Hendless (mkPlaylistsRequest "snippet" channel_id 50 token))
      as (res & -> & Htok). rewrite Htok. simpl.
    destruct (IH (playlists ++ default [] (rs_items res))
                (rs_nextPageToken res)
                (requests ++ [mkPlaylistsRequest "snippet" channel_id 50 token]))
      as (requests' & -> & Hlen).
    eexists (_ :: requests'). rewrite <- app_assoc. simpl. by rewrite Hlen.
Qed.

Lemma loop_raises fuel channel_id playlists token requests e requests' :
  list_all_playlists_loop playlists_list fuel channel_id playlists token
    requests = (Some (Raise e), requests') →
  ∃ pages rq,
    requests' = requests ++ page_requests channel_id token pages ++ [rq] ∧
    Forall2 (λ rq res, playlists_list rq = Return res)
            (page_requests channel_id token pages) pages ∧
    Forall (λ res, truthy_opt (rs_nextPageToken res) = true) pages ∧
    rq_maxResults rq = 50 ∧ rq_channelId rq = channel_id ∧
    playlists_list rq = Raise e.
Proof.
  revert playlists token requests.
  induction fuel as [|fuel IH]; intros playlists token requests; simpl; [done|].
  destruct (playlists_list _) as [res|e'] eqn:Hres.
  - destruct (truthy_opt (rs_nextPageToken res)) eqn:Htok; simpl; [|done].
    intros H.
    apply IH in H as (pages & rq & -> & Hall & Htoks & Hmax & Hcid & Hrq).
    exists (res :: pages), rq. simpl. rewrite <- !app_assoc. simpl.
    split; [done|]. split; [by constructor|]. split; [by constructor|]. done.
  - intros [= <- <-].
    exists [], (mkPlaylistsRequest "snippet" channel_id 50 token).
    simpl. split; [done|]. split; [constructor|]. split; [constructor|]. done.
Qed.
End Enumerator.

(** X5. Against a provider that answers every request with a
    continuation token the enumerator never returns: however many
    iterations it is given, it has not reached the [break], and it has
    issued one request per iteration. *)
Theorem enumerator_never_stops_on_endless_tokens
  (playlists_list : playlists_request → outcome playlists_response)
  (channel_id : string) (fuel : nat) :
  (∀ rq, ∃ res, playlists_list rq = Return res ∧
                truthy_opt (rs_nextPageToken res) = true) →
  ∃ requests,
    list_all_playlists playlists_list fuel channel_id = (None, requests) ∧
    length requests = fuel.
Proof.
  intros Hendless.
  destruct (loop_endless playlists_list fuel channel_id [] None [] Hendless)
    as (requests & Hrun & Hlen).
  by exists requests.
Qed.

Lemma enumerator_never_stops_on_endless_tokens_witness :
  ∃ requests,
    list_all_playlists endless_provider 1000 "UC-c" = (None, requests) ∧
    length requests = 1000.
Proof.
  apply (enumerator_never_stops_on_endless_tokens endless_provider "UC-c" 1000).
  intros rq. eexists. split; [reflexivity|reflexivity].
Defined.

(** X6. When the enumerator raises, the exception is the one a page
    request raised: the requests before it returned pages with a
    continuation token, and those pages are not returned. *)
Theorem enumerator_raises_what_a_page_raises
  (playlists_list : playlists_request → outcome playlists_response)
  (channel_id : string) (fuel : nat) (e : Exception)
  (requests : list playlists_request) :
  list_all_playlists playlists_list fuel channel_id
  = (Some (Raise e), requests) →
  ∃ pages rq,
    requests = page_requests channel_id None pages ++ [rq] ∧
    Forall2 (λ rq res, playlists_list rq = Return res)
            (page_requests channel_id None pages) pages ∧
    Forall (λ res, truthy_opt (rs_nextPageToken res) = true) pages ∧
    rq_maxResults rq = 50 ∧ rq_channelId rq = channel_id ∧
    playlists_list rq = Raise e.
Proof. intros H. by apply loop_raises in H. Qed.

Lemma enumerator_raises_what_a_page_raises_witness :
  ∃ pages rq,
    (list_all_playlists failing_second_page 5 "UC-c").2
    = page_requests "UC-c" None pages ++ [rq] ∧
    Forall2 (λ rq res, failing_second_page rq = Return res)
            (page_requests "UC-c" None pages) pages ∧
    Forall (λ res, truthy_opt (rs_nextPageToken res) = true) pages ∧
    rq_maxResults rq = 50 ∧ rq_channelId rq = "UC-c" ∧
    failing_second_page rq = Raise (mkException "HttpError" "quotaExceeded").
Proof.
  apply (enumerator_raises_what_a_page_raises failing_second_page "UC-c" 5).
  reflexivity.
Defined.

Lemma last_id_of_elem title all i :
  last_id_of title all = Some i → mkPlaylist i title ∈ all.
Proof.
  unfold last_id_of, last_id_from.
  induction all as [|pl all IH] using rev_ind; [done|].
  rewrite foldl_app. simpl. case_decide as Ht.
  - intros [= <-]. subst title. apply elem_of_app. right.
    destruct pl. simpl. left.
  - intros H. apply elem_of_app. left. by apply IH.
Qed.

Lemma dict_get_all_none {V} (d : list (string * V)) :
  (∀ k, dict_get k d = None) → d = [].
Proof.
  destruct d as [|[k v] d]; [done|]. intros H. specialize (H k). simpl in H.
  by rewrite decide_True in H.
Qed.

Lemma dict_get_elem_of {V} (k : string) (v : V) d :
  (k, v) ∈ d → is_Some (dict_get k d).
Proof.
  induction d as [|[k' v'] d IH]; [by intros ?%elem_of_nil|].
  intros [[= <- <-]|Hin]%elem_of_cons; simpl.
  - rewrite decide_True by done. eauto.
  - case_decide; [eauto|by apply IH].
Qed.

Lemma dict_get_elem_nodup {V} (k : string) (v : V) d :
  NoDup d.*1 → (k, v) ∈ d → dict_get k d = Some v.
Proof.
  induction d as [|[k' v'] d IH]; [by intros _ ?%elem_of_nil|].
  simpl. intros [Hk' Hnd]%NoDup_cons [[= <- <-]|Hin]%elem_of_cons.
  - by rewrite decide_True.
  - rewrite decide_False; [by apply IH|].
    intros ->. apply Hk'. apply list_elem_of_fmap. by exists (k, v).
Qed.

Section Matched.
Variable unicode_lower : string → string.

Lemma match_playlists_none playlist_titles all :
  (∀ pl, pl ∈ all → ¬ matched unicode_lower playlist_titles (pl_title pl)) →
  match_playlists unicode_lower playlist_titles all = [].
Proof.
  intros Hnone. apply dict_get_all_none. intros title.
  rewrite match_playlists_get.
  destruct (existsb _ _) eqn:E; [|done].
  apply existsb_matched in E.
  destruct (last_id_of title all) as [i|] eqn:Hlast; [|done].
  apply last_id_of_elem in Hlast. by destruct (Hnone _ Hlast).
Qed.

Lemma found_titles_matched playlist_titles all title i :
  (title, i) ∈ match_playlists unicode_lower playlist_titles all →
  matched unicode_lower playlist_titles title.
Proof.
  intros Hin. apply dict_get_elem_of in Hin as [j Hj].
  rewrite match_playlists_get in Hj.
  destruct (existsb _ _) eqn:E; [|done]. by apply existsb_matched.
Qed.

Lemma found_titles_enumerated playlist_titles all title i :
  (title, i) ∈ match_playlists unicode_lower playlist_titles all →
  mkPlaylist i title ∈ all.
Proof.
  intros Hin. apply dict_get_elem_nodup in Hin; [|apply match_playlists_keys].
  rewrite match_playlists_get in Hin.
  destruct (existsb _ _); [|done]. by apply last_id_of_elem.
Qed.

Lemma video_resource_record item pl handle now playlist_titles all :
  pl ∈ all → matched unicode_lower playlist_titles (pl_title pl) →
  video_record unicode_lower handle playlist_titles all
    (video_resource item (pl_title pl) handle now).
Proof.
  intros Hin Hm. split; [done|]. split; [done|]. split; [done|].
  split; [by exists (it_videoId item)|]. by exists pl.
Qed.
End Matched.

Section Videos.
Variable unicode_lower : string → string.
Variable channels_list : string → outcome channels_response.
Variable playlists_list : playlists_request → outcome playlists_response.
Variable playlist_items_list : string → nat → outcome playlist_items_response.
Variable utcnow_iso : nat → string.

Lemma fetch_videos_spec playlist_id handle title max_results clk videos clk' :
  fetch_videos_from_playlist playlist_items_list utcnow_iso playlist_id handle
    title max_results clk = Return (videos, clk') →
  ∃ res, playlist_items_list playlist_id max_results = Return res ∧
    clk' = clk + length videos ∧
    Forall2 (λ item r, ∃ now, r = video_resource item title handle now)
            (default [] (pi_items res)) videos.
Proof.
  unfold fetch_videos_from_playlist.
  destruct (playlist_items_list playlist_id max_results) as [res|e]; [|done].
  simpl. intros [= Hfold]. exists res. split; [done|].
  assert (∀ items acc,
    let out := foldl (λ acc item,
                  ((acc.1 ++ [video_resource item title handle
                                (utcnow_iso acc.2)]),
                   S acc.2)) acc items in
    ∃ new, out.1 = acc.1 ++ new ∧ out.2 = acc.2 + length new ∧
           Forall2 (λ item r, ∃ now, r = video_resource item title handle now)
                   items new) as Hgen.
  { induction items as [|item items IH]; intros acc; simpl.
    - exists []. rewrite app_nil_r. split; [done|].
      split; [simpl; lia|constructor].
    - destruct (IH ((acc.1 ++ [video_resource item title handle
                                 (utcnow_iso acc.2)]),
                    S acc.2)) as (new & H1 & H2 & H3). simpl in *.
      eexists (_ :: new). rewrite H1, H2, <- app_assoc. simpl.
      split; [done|]. split; [lia|]. constructor; [eauto|done]. }
  destruct (Hgen (default [] (pi_items res)) ([], clk)) as (new & H1 & H2 & H3).
  simpl in *. rewrite Hfold in H1, H2. simpl in *. subst new. done.
Qed.

Lemma fetch_found_spec handle found max_results all clk out clk' :
  fetch_found playlist_items_list utcnow_iso handle found max_results all clk
  = Return (out, clk') →
  ∃ new, out = all ++ new ∧ clk' = clk + length new ∧
    Forall (λ r, ∃ title i item now,
                   (title, i) ∈ found ∧
                   r = video_resource item title handle now)
           new.
Proof.
  revert all clk. induction found as [|[title i] found IH]; intros all clk;
    simpl.
  - intros [= <- <-]. exists []. rewrite app_nil_r. split; [done|].
    split; [simpl; lia|constructor].
  - destruct (fetch_videos_from_playlist _ _ i handle title max_results clk)
      as [[videos clk1]|e] eqn:Hv; [|done]. simpl.
    intros Hrest. apply fetch_videos_spec in Hv as (res & _ & -> & Hall).
    apply IH in Hrest as (new & -> & -> & Hnew).
    exists (videos ++ new). rewrite app_assoc, length_app.
    split; [done|]. split; [lia|]. apply Forall_app. split.
    + apply Forall_forall. intros r Hr.
      destruct (CrawlerMore.Forall2_elem_r _ _ _ _ Hall Hr)
        as (item & _ & now & ->).
      exists title, i, item, now. split; [left|done].
    + eapply Forall_impl; [exact Hnew|].
      intros r (t & j & item & now & Hin & ->). exists t, j, item, now.
      split; [by right|done].
Qed.

Lemma fetch_by_title_found fuel handle playlist_titles max_results clk
  videos clk' :
  fetch_youtube_playlists_by_title unicode_lower channels_list playlists_list
    playlist_items_list utcnow_iso fuel handle playlist_titles max_results clk
  = Some (Return (videos, clk')) →
  ∃ channel_id all,
    resolve_channel_id channels_list handle = Return channel_id ∧
    (list_all_playlists playlists_list fuel channel_id).1
    = Some (Return all) ∧
    clk' = clk + length videos ∧
    Forall (λ r, ∃ title i item now,
                   (title, i) ∈ match_playlists unicode_lower playlist_titles
                                  all ∧
                   r = video_resource item title handle now) videos.
Proof.
  unfold fetch_youtube_playlists_by_title.
  destruct (resolve_channel_id channels_list handle) as [cid|e]; [|done].
  destruct (list_all_playlists playlists_list fuel cid).1 as [[all|e]|] eqn:Hl;
    [|done..].
  intros [= Hf]. apply fetch_found_spec in Hf as (new & -> & -> & Hnew).
  exists cid, all. by rewrite Hl.
Qed.

Lemma fetch_by_title_spec fuel handle playlist_titles max_results clk
  videos clk' :
  fetch_youtube_playlists_by_title unicode_lower channels_list playlists_list
    playlist_items_list utcnow_iso fuel handle playlist_titles max_results clk
  = Some (Return (videos, clk')) →
  clk' = clk + length videos ∧
  Forall (λ r, ∃ title item now,
                 matched unicode_lower playlist_titles title ∧
                 r = video_resource item title handle now) videos.
Proof.
  intros (cid & all & _ & _ & -> & Hnew)%fetch_by_title_found.
  split; [done|]. eapply Forall_impl; [exact Hnew|].
  intros r (t & j & item & now & Hin & ->). exists t, item, now.
  split; [by eapply found_titles_matched|done].
Qed.
End Videos.

(** X7. When the channel resolves and its playlists are enumerated but
    no desired substring, lowered, occurs in any of their titles,
    lowered, the result is the empty list, without an error and without
    a reading of the clock; whatever [str.lower()] does outside ASCII. *)
Theorem no_match_is_empty (unicode_lower : string → string)
  (channels_list : string → outcome channels_response)
  (playlists_list : playlists_request → outcome playlists_response)
  (playlist_items_list : string → nat → outcome playlist_items_response)
  (utcnow_iso : nat → string)
  (fuel : nat) (handle : string) (playlist_titles : list string)
  (max_results clk : nat) (channel_id : string) (all : list playlist)
  (requests : list playlists_request) :
  resolve_channel_id channels_list handle = Return channel_id →
  list_all_playlists playlists_list fuel channel_id
  = (Some (Return all), requests) →
  (∀ pl, pl ∈ all → ¬ matched unicode_lower playlist_titles (pl_title pl)) →
  fetch_youtube_playlists_by_title unicode_lower channels_list playlists_list
    playlist_items_list utcnow_iso fuel handle playlist_titles max_results clk
  = Some (Return ([], clk)).
Proof.
  intros Hres Hlist Hnone. unfold fetch_youtube_playlists_by_title.
  rewrite Hres, Hlist. simpl. by rewrite match_playlists_none.
Qed.

Lemma no_match_is_empty_witness :
  fetch_youtube_playlists_by_title as_is one_channel
    (paged_provider three_playlists) lecture_items tick 2 "@mitocw" ["quiz"]
    20 0
  = Some (Return ([], 0)).
Proof.
  apply (no_match_is_empty as_is one_channel (paged_provider three_playlists)
           lecture_items tick 2 "@mitocw" ["quiz"] 20 0 "UC-c" three_playlists
           [mkPlaylistsRequest "snippet" "UC-c" 50 None]);
    [reflexivity|reflexivity|].
  intros pl Hin (desired & Hd & Hm).
  apply list_elem_of_singleton in Hd as ->.
  apply fuzzy_match_lowered in Hm.
  repeat (apply elem_of_cons in Hin as [->|Hin]; [by vm_compute in Hm|]).
  by apply elem_of_nil in Hin.
Defined.

(** X8. Every Resource the video lister returns is a video with subtype
    [lecture], carries the channel handle as configured, a watch URL built
    from a video id, and the title of a playlist enumerated for the
    resolved channel that some desired substring matches; the clock is
    read once per Resource. *)
Theorem listed_videos_are_video_records (unicode_lower : string → string)
  (channels_list : string → outcome channels_response)
  (playlists_list : playlists_request → outcome playlists_response)
  (playlist_items_list : string → nat → outcome playlist_items_response)
  (utcnow_iso : nat → string)
  (fuel : nat) (handle : string) (playlist_titles : list string)
  (max_results clk : nat) (videos : list (gmap string value)) (clk' : nat) :
  fetch_youtube_playlists_by_title unicode_lower channels_list playlists_list
    playlist_items_list utcnow_iso fuel handle playlist_titles max_results clk
  = Some (Return (videos, clk')) →
  ∃ channel_id all,
    resolve_channel_id channels_list handle = Return channel_id ∧
    (list_all_playlists playlists_list fuel channel_id).1
    = Some (Return all) ∧
    Forall (video_record unicode_lower handle playlist_titles all) videos ∧
    clk' = clk + length videos.
Proof.
  intros (cid & all & Hres & Hlist & -> & Hall)%fetch_by_title_found.
  exists cid, all. split; [done|]. split; [done|]. split; [|done].
  eapply Forall_impl; [exact Hall|].
  intros r (t & i & item & now & Hin & ->).
  apply (video_resource_record unicode_lower item (mkPlaylist i t)).
  - by eapply found_titles_enumerated.
  - by eapply found_titles_matched.
Qed.

Lemma listed_videos_are_video_records_witness :
  ∃ videos,
    fetch_youtube_playlists_by_title as_is one_channel
      (paged_provider three_playlists) lecture_items tick 2 "@mitocw"
      ["lecture"] 20 0 = Some (Return (videos, 2)) ∧
    ∃ channel_id all,
      resolve_channel_id one_channel "@mitocw" = Return channel_id ∧
      (list_all_playlists (paged_provider three_playlists) 2 channel_id).1
      = Some (Return all) ∧
      Forall (video_record as_is "@mitocw" ["lecture"] all) videos ∧
      2 = 0 + length videos.
Proof.
  eexists. split; [reflexivity|].
  apply (listed_videos_are_video_records as_is one_channel
           (paged_provider three_playlists) lecture_items tick 2 "@mitocw"
           ["lecture"] 20 0).
  reflexivity.
Defined.
End ProviderMore.

(** ** The discovery job *)
Module JobFacts.
Import Py Discover Ingest Job Fixtures MoreFixtures Notions PyFacts.
Import CrawlerFacts ProviderFacts StringFacts ProviderMore.

(** X9. For a configuration path [s3://...] the loader asks the object
    store for the empty bucket name, with everything after [s3://] as
    the key: the piece between the two slashes is taken for the bucket. *)
Theorem load_config_s3_location
  (s3_get_config : string → string → outcome config)
  (open_config : string → outcome config) (rest : string) :
  load_config s3_get_config open_config ("s3://" +:+ rest)
  = s3_get_config "" rest.
Proof.
  unfold load_config.
  assert (startswith ("s3://" +:+ rest) "s3://" = true) as ->
    by apply prefix_app.
  assert (split ("s3://" +:+ rest) "/" = "s3:" :: "" :: split rest "/") as ->.
  { change ("s3://" +:+ rest) with ("s3:" +:+ "/" +:+ ("" +:+ "/" +:+ rest)).
    rewrite split_first by done. by rewrite split_first by done. }
  by rewrite split_join.
Qed.

Lemma discovered_facts r :
  discovered r →
  (r !! "type" = Some (VStr "pdf") ∨ r !! "type" = Some (VStr "video")) ∧
  (∃ url, r !! "url" = Some (VStr url) ∧ startswith url "http" = true) ∧
  dom r ## outcome_keys.
Proof.
  intros Hd.
  assert (∀ k, k ∈ outcome_keys → r !! k = None) as Hnone.
  { intros k. unfold outcome_keys.
    rewrite !elem_of_union, !elem_of_singleton.
    destruct Hd; intros [[[[-> | ->] | ->] | ->] | ->]; reflexivity. }
  split; [by destruct Hd; [left|right]|]. split.
  - destruct Hd.
    + exists (pdf_full_url href). split; [done|apply pdf_full_url_http].
    + eexists. split; [reflexivity|]. reflexivity.
  - intros k Hk Hout. apply elem_of_dom in Hk as [v Hv].
    rewrite (Hnone k Hout) in Hv. done.
Qed.

Section Main.
Variable unicode_lower : string → string.
Variable get : string → outcome (list anchor).
Variable channels_list : string → outcome channels_response.
Variable playlists_list : playlists_request → outcome playlists_response.
Variable playlist_items_list : string → nat → outcome playlist_items_response.
Variable utcnow_iso : nat → string.
Variable utcnow_stamp : nat → string.
Variable put_object : string → list (gmap string value) → outcome unit.
Variable YOUTUBE_API_KEY : option string.

Lemma scrape_results_discovered now_iso course fuel :
  Forall discovered (results (scrape_run get now_iso course fuel).2).
Proof.
  apply (scrape_page_preserves get now_iso course
           (λ st, Forall discovered (results st))).
  - done.
  - intros href text url st _ Hst. simpl. apply Forall_app. split; [done|].
    constructor; [constructor|done].
  - constructor.
Qed.

Lemma crawl_courses_discovered fuel handles all clk out clk' :
  crawl_courses get utcnow_iso fuel handles all clk = Some (out, clk') →
  Forall discovered all → Forall discovered out.
Proof.
  revert all clk. induction handles as [|h handles IH]; intros all clk; simpl.
  - by intros [= <- <-].
  - destruct (scrape_run _ _ h fuel).1 eqn:E; [|done].
    intros Hrest Hall. eapply IH; [exact Hrest|].
    apply Forall_app. split; [done|]. apply scrape_results_discovered.
Qed.

Lemma fetch_channels_discovered fuel channels all clk out clk' :
  fetch_channels unicode_lower channels_list playlists_list playlist_items_list
    utcnow_iso fuel channels all clk = Some (Return (out, clk')) →
  Forall discovered all → Forall discovered out.
Proof.
  revert all clk. induction channels as [|[handle titles] channels IH];
    intros all clk; simpl.
  - by intros [= <- <-].
  - destruct (fetch_youtube_playlists_by_title _ _ _ _ _ fuel handle titles 20
                clk)
      as [[[videos clk1]|e]|] eqn:Hf; [|done..].
    simpl. intros Hrest Hall. eapply IH; [exact Hrest|].
    apply Forall_app. split; [done|].
    apply fetch_by_title_spec in Hf as [_ Hv].
    eapply Forall_impl; [exact Hv|]. intros r (t & item & now & _ & ->).
    constructor.
Qed.

Lemma discover_returns fuel cfg manifest written :
  discover unicode_lower get channels_list playlists_list playlist_items_list
    utcnow_iso utcnow_stamp put_object YOUTUBE_API_KEY fuel cfg
  = Some (Return manifest, written) →
  Forall discovered manifest ∧
  (manifest = [] → written = []) ∧
  (manifest ≠ [] →
   ∃ clk, written = [("urls/discovered_" +:+ utcnow_stamp clk +:+ ".json",
                      manifest)]).
Proof.
  unfold discover.
  destruct (crawl_courses _ _ fuel _ [] 0) as [[all clk]|] eqn:Hc; [|done].
  apply crawl_courses_discovered in Hc; [|constructor].
  assert (∀ out clk',
    (if truthy_opt YOUTUBE_API_KEY
     then fetch_channels unicode_lower channels_list playlists_list
            playlist_items_list utcnow_iso fuel
            (default [] (youtube_playlists cfg)) all clk
     else Some (Return (all, clk))) = Some (Return (out, clk')) →
    Forall discovered out) as Hout.
  { intros out clk'. destruct (truthy_opt YOUTUBE_API_KEY).
    - intros H. by eapply fetch_channels_discovered.
    - by intros [= <- <-]. }
  destruct (if truthy_opt YOUTUBE_API_KEY then _ else _)
    as [[[out clk']|e]|]; [|done..].
  specialize (Hout out clk' eq_refl).
  destruct out as [|r out'].
  - by intros [= <- <-].
  - unfold save_to_s3. destruct (put_object _ _) as [[]|e] eqn:Hput; simpl;
      [|done].
    intros [= <- <-]. split; [done|]. split; [done|]. intros _. by exists clk'.
Qed.

Lemma fetch_channels_first_lookup_empty fuel handle titles channels all clk
  res :
  channels_list (lstrip "@" handle) = Return res →
  default [] (channels_items res) = [] →
  ∃ e, fetch_channels unicode_lower channels_list playlists_list
         playlist_items_list utcnow_iso fuel ((handle, titles) :: channels) all
         clk
       = Some (Raise e) ∧
       (e = IndexError ∨ e = KeyError "items").
Proof.
  intros Hres Hempty. simpl. unfold fetch_youtube_playlists_by_title.
  unfold resolve_channel_id. rewrite Hres. simpl.
  destruct (channels_items res) as [items|]; simpl in *.
  - subst items. simpl. exists IndexError. split; [done|by left].
  - exists (KeyError "items"). split; [done|by right].
Qed.
End Main.

(** X10. When the discovery job returns, every Resource of the manifest
    is a [pdf] or a [video], has a url beginning with [http] and none of
    the ingestion outcome fields; an empty manifest is not written, and a
    non-empty one is written once, whole, under
    [urls/discovered_<stamp>.json]. *)
Theorem discover_manifest (unicode_lower : string → string)
  (get : string → outcome (list anchor))
  (channels_list : string → outcome channels_response)
  (playlists_list : playlists_request → outcome playlists_response)
  (playlist_items_list : string → nat → outcome playlist_items_response)
  (utcnow_iso utcnow_stamp : nat → string)
  (put_object : string → list (gmap string value) → outcome unit)
  (YOUTUBE_API_KEY : option string) (fuel : nat) (cfg : config)
  (manifest : list (gmap string value))
  (written : list (string * list (gmap string value))) :
  discover unicode_lower get channels_list playlists_list playlist_items_list
    utcnow_iso utcnow_stamp put_object YOUTUBE_API_KEY fuel cfg
  = Some (Return manifest, written) →
  Forall (λ r, (r !! "type" = Some (VStr "pdf") ∨
                r !! "type" = Some (VStr "video")) ∧
               (∃ url, r !! "url" = Some (VStr url) ∧
                       startswith url "http" = true) ∧
               dom r ## outcome_keys) manifest ∧
  (manifest = [] → written = []) ∧
  (manifest ≠ [] →
   ∃ clk, written = [("urls/discovered_" +:+ utcnow_stamp clk +:+ ".json",
                      manifest)]).
Proof.
  intros Hrun. apply discover_returns in Hrun as (Hall & Hempty & Hsaved).
  split; [|done]. eapply Forall_impl; [exact Hall|]. apply discovered_facts.
Qed.

Lemma discover_manifest_witness :
  ∃ manifest written,
    discover as_is (site_of cyclic_pages) one_channel
      (paged_provider three_playlists) lecture_items tick stamp accept_put
      (Some "api-key") 4 sample_config
    = Some (Return manifest, written) ∧
    length manifest = 3 ∧
    Forall (λ r, (r !! "type" = Some (VStr "pdf") ∨
                  r !! "type" = Some (VStr "video")) ∧
                 (∃ url, r !! "url" = Some (VStr url) ∧
                         startswith url "http" = true) ∧
                 dom r ## outcome_keys) manifest ∧
    (manifest = [] → written = []) ∧
    (manifest ≠ [] →
     ∃ clk, written = [("urls/discovered_" +:+ stamp clk +:+ ".json",
                        manifest)]).
Proof.
  eexists. eexists. split; [reflexivity|]. split; [reflexivity|].
  apply (discover_manifest as_is (site_of cyclic_pages) one_channel
           (paged_provider three_playlists) lecture_items tick stamp accept_put
           (Some "api-key") 4 sample_config).
  reflexivity.
Defined.

(** X11. When a video-provider key is configured and the lookup of the
    first configured channel returns no item, the discovery job ends with
    the exception of the lookup and writes nothing, whatever the crawls
    found before. *)
Theorem channel_failure_discards_run (unicode_lower : string → string)
  (get : string → outcome (list anchor))
  (channels_list : string → outcome channels_response)
  (playlists_list : playlists_request → outcome playlists_response)
  (playlist_items_list : string → nat → outcome playlist_items_response)
  (utcnow_iso utcnow_stamp : nat → string)
  (put_object : string → list (gmap string value) → outcome unit)
  (YOUTUBE_API_KEY : option string) (fuel : nat) (cfg : config)
  (handle : string) (titles : list string)
  (channels : list (string * list string)) (res : channels_response)
  (all : list (gmap string value)) (clk : nat) :
  crawl_courses get utcnow_iso fuel (default [] (ocw_courses cfg)) [] 0
  = Some (all, clk) →
  truthy_opt YOUTUBE_API_KEY = true →
  youtube_playlists cfg = Some ((handle, titles) :: channels) →
  channels_list (lstrip "@" handle) = Return res →
  default [] (channels_items res) = [] →
  ∃ e, discover unicode_lower get channels_list playlists_list
         playlist_items_list utcnow_iso utcnow_stamp put_object YOUTUBE_API_KEY
         fuel cfg
       = Some (Raise e, []) ∧
       (e = IndexError ∨ e = KeyError "items").
Proof.
  intros Hc Hkey Hcfg Hres Hempty.
  destruct (fetch_channels_first_lookup_empty unicode_lower channels_list
              playlists_list playlist_items_list utcnow_iso fuel handle titles
              channels all clk res Hres Hempty) as (e & He & Hcase).
  exists e. split; [|done]. unfold discover.
  rewrite Hc, Hkey, Hcfg. simpl default. by rewrite He.
Qed.

(** The crawl of course [c] finds a document, the channel is unknown. *)
Lemma channel_failure_discards_run_witness :
  (∃ all clk,
     crawl_courses (site_of cyclic_pages) tick 4 ["c"] [] 0 = Some (all, clk) ∧
     length all = 1) ∧
  ∃ e, discover as_is (site_of cyclic_pages) no_such_channel
         (paged_provider three_playlists) lecture_items tick stamp accept_put
         (Some "api-key") 4 sample_config
       = Some (Raise e, []) ∧
       (e = IndexError ∨ e = KeyError "items").
Proof.
  split; [eexists; eexists; split; reflexivity|].
  eapply (channel_failure_discards_run as_is (site_of cyclic_pages)
            no_such_channel
            (paged_provider three_playlists) lecture_items tick stamp accept_put
            (Some "api-key") 4 sample_config "@mitocw" ["lecture"] []
            (mkChannelsResponse (Some [])));
    reflexivity.
Defined.
End JobFacts.

(** ** More on the ingestion run *)
Module IngestMore.
Import Py Discover Ingest Job IngestIO Fixtures MoreFixtures Notions PyFacts.
Import IngestFacts StringFacts.

(** X12. A discovery file [s3://<bucket>/<key>], with no slash in the
    bucket name, is read from that bucket under that key. *)
Theorem load_discovery_s3_location {W : Type}
  (s3_get_json : string → string → io W (list (gmap string value)))
  (open_json : string → io W (list (gmap string value)))
  (bucket key : string) :
  contains "/" bucket = false →
  load_discovery_file s3_get_json open_json
    ("s3://" +:+ bucket +:+ "/" +:+ key)
  = s3_get_json bucket key.
Proof.
  intros Hno. unfold load_discovery_file.
  assert (startswith ("s3://" +:+ bucket +:+ "/" +:+ key) "s3://" = true) as ->
    by apply CrawlerFacts.prefix_app.
  change (drop_chars (String.length "s3://")
            ("s3://" +:+ bucket +:+ "/" +:+ key))
    with (bucket +:+ "/" +:+ key).
  rewrite split_first by done. by rewrite split_join.
Qed.

Lemma load_discovery_s3_location_witness :
  load_discovery_file manifest_store no_local_file
    "s3://edu-data/urls/discovered_20250924.json" []
  = (Return five_videos, []).
Proof.
  transitivity
    (manifest_store "edu-data" "urls/discovered_20250924.json" []);
    [|reflexivity].
  exact (f_equal (λ f, f [])
           (load_discovery_s3_location manifest_store no_local_file
              "edu-data" "urls/discovered_20250924.json" eq_refl)).
Defined.

(** X13. For a URL [<dir>/<name>] the document upload uses the key
    [<key_prefix><name>], whatever [<dir>] is, and returns that key or
    [None]; it returns [None] exactly when the request, the status check
    or the upload raised. *)
Theorem upload_pdf_key {W R : Type}
  (http_get : string → io W R) (raise_for_status : R → outcome unit)
  (s3_upload_fileobj : R → string → io W unit) (close : R → W → W)
  (dir name key_prefix : string) (w : W) :
  contains "/" name = false →
  let out := upload_pdf_to_s3 http_get raise_for_status s3_upload_fileobj close
               (dir +:+ "/" +:+ name) key_prefix w in
  (out.1 = None ∨ out.1 = Some (key_prefix +:+ name)) ∧
  (out.1 = None ↔
   (∃ e, (http_get (dir +:+ "/" +:+ name) w).1 = Raise e) ∨
   (∃ r w1, http_get (dir +:+ "/" +:+ name) w = (Return r, w1) ∧
      ((∃ e, raise_for_status r = Raise e) ∨
       (∃ e, (s3_upload_fileobj r (key_prefix +:+ name) w1).1 = Raise e)))).
Proof.
  intros Hno. unfold upload_pdf_to_s3. rewrite last_piece_basename by done.
  unfold lift, mbind, io_bind.
  destruct (http_get (dir +:+ "/" +:+ name) w) as [[r|e] w1]; simpl.
  - destruct (raise_for_status r) as [[]|e] eqn:Hst; simpl.
    + destruct (s3_upload_fileobj r (key_prefix +:+ name) w1)
        as [[[]|e] w2] eqn:Hup; simpl.
      * split; [by right|]. split; [done|].
        intros [[e He]|(r' & w' & Heq & [[e He]|[e He]])]; simplify_eq/=.
        -- congruence.
        -- by rewrite Hup in He.
      * split; [by left|]. split; [|done]. intros _. right.
        exists r, w1. split; [done|]. right. exists e. by rewrite Hup.
    + split; [by left|]. split; [|done]. intros _. right.
      exists r, w1. split; [done|]. left. by exists e.
  - split; [by left|]. split; [|done]. intros _. left. by exists e.
Qed.

(** Two documents of the same name in two directories get the same key. *)
Lemma upload_pdf_key_witness :
  (upload_pdf_to_s3 http_ok check_status store_fileobj close_response
     "https://ocw.mit.edu/courses/c/notes.pdf" "pdfs/" []).1
  = Some "pdfs/notes.pdf" ∧
  (upload_pdf_to_s3 http_ok check_status store_fileobj close_response
     "https://ocw.mit.edu/courses/d/notes.pdf" "pdfs/" []).1
  = Some "pdfs/notes.pdf".
Proof.
  destruct (upload_pdf_key http_ok check_status store_fileobj close_response
              "https://ocw.mit.edu/courses/c" "notes.pdf" "pdfs/" [] eq_refl)
    as [[Hnone|Hkey] _]; [discriminate Hnone|].
  split; [exact Hkey|reflexivity].
Defined.

Lemma eq_str_spec v s : eq_str v s = true ↔ v = VStr s.
Proof.
  destruct v; simpl; try (split; [done|by intros [=]]).
  rewrite bool_decide_eq_true. split; [by intros ->|by intros [= ->]].
Qed.

Lemma eq_str_false v s : eq_str v s = false ↔ v ≠ VStr s.
Proof. rewrite <- eq_str_spec. by destruct (eq_str v s). Qed.

Lemma status_count_cons s e l :
  status_count s (e :: l) = (if status_is s e then 1 else 0) + status_count s l.
Proof.
  unfold status_count. destruct (status_is s e) eqn:E.
  - by rewrite filter_cons_True.
  - rewrite filter_cons_False; [done|]. by rewrite E.
Qed.

Lemma record_of_one_status r e :
  record_of r e →
  (if status_is "success" e then 1 else 0) +
  (if status_is "failed" e then 1 else 0) +
  (if status_is "skipped" e then 1 else 0) = 1.
Proof.
  intros Hrec.
  assert (∃ s, e !! "status" = Some (VStr s) ∧
               (s = "success" ∨ s = "failed" ∨ s = "skipped"))
    as (s & Hs & Hcase).
  { destruct Hrec; unfold success_record, update; simpl.
    - exists "success". rewrite lookup_insert_eq. eauto.
    - exists "failed". rewrite lookup_insert_ne, lookup_insert_eq by done.
      eauto.
    - exists "skipped". rewrite lookup_insert_ne, lookup_insert_eq by done.
      eauto. }
  unfold status_is. rewrite Hs. by destruct Hcase as [-> | [-> | ->]].
Qed.

Lemma filter_split_length {A} (f : A → bool) (l : list A) :
  length (filter (λ x, f x = false) l) + length (filter (λ x, f x = true) l)
  = length l.
Proof.
  induction l as [|x l IH]; [done|]. destruct (f x) eqn:E.
  - rewrite filter_cons_False by (by rewrite E).
    rewrite filter_cons_True by done. simpl. lia.
  - rewrite filter_cons_True by done.
    rewrite filter_cons_False by (by rewrite E). simpl. lia.
Qed.

Lemma success_record_skipped r res now :
  status_is "success" (success_record r res now) = true ∧
  status_is "skipped" (success_record r res now) = false.
Proof.
  unfold status_is, success_record, update; simpl.
  by rewrite lookup_insert_eq.
Qed.

Section Run.
Context {W : Type} (c : collaborators W).
Local Arguments update : simpl never.

Lemma handle_item_record r w e :
  (handle_item c r w).1 = Some e → record_of r e.
Proof.
  intros He. destruct (is_pdf r) eqn:Hpdf.
  - by rewrite handle_item_pdf in He.
  - destruct (handle_item_not_pdf c r w Hpdf) as (e' & He' & Hr). congruence.
Qed.

Lemma handle_item_no_type r w :
  r !! "type" = None →
  handle_item c r w = (Some (failed_record r (KeyError "type")), w).
Proof.
  unfold handle_item, try_body, lift, getitem, mbind, io_bind. by intros ->.
Qed.

Lemma handle_item_no_url r w :
  r !! "type" = Some (VStr "video") → r !! "url" = None →
  handle_item c r w = (Some (failed_record r (KeyError "url")), w).
Proof.
  unfold handle_item, try_body, lift, getitem, mbind, io_bind.
  intros -> Hurl. simpl. by rewrite Hurl.
Qed.

Lemma handle_item_bad_url r w v :
  r !! "type" = Some (VStr "video") → r !! "url" = Some v →
  type_name v ≠ "str" →
  handle_item c r w = (Some (failed_record r (AttributeError v "split")), w).
Proof.
  unfold handle_item, try_body, lift, getitem, raise, mbind, io_bind.
  intros -> Hurl Hty. simpl. rewrite Hurl. by destruct v.
Qed.

Lemma handle_item_unknown_type r w ty :
  r !! "type" = Some ty → ty ≠ VStr "pdf" → ty ≠ VStr "video" →
  handle_item c r w =
  (Some (update r [("status", VStr "skipped");
                   ("reason", VStr "unknown type")]), w).
Proof.
  unfold handle_item, try_body, lift, getitem, mbind, io_bind, mret, io_ret.
  intros -> Hpdf Hvideo.
  apply eq_str_false in Hpdf, Hvideo. by rewrite Hpdf, Hvideo.
Qed.

Lemma process_resources_acc resources processed w :
  (process_resources c resources processed w).1 =
  processed ++ (process_resources c resources [] w).1.
Proof.
  revert processed w. induction resources as [|r resources IH];
    intros processed w; simpl; [by rewrite app_nil_r|].
  rewrite IH. rewrite (IH (match _ with Some e => [] ++ [e] | None => [] end)).
  destruct (handle_item c r w).1; simpl; [by rewrite <- app_assoc|done].
Qed.

Lemma handle_item_status_stable r w1 w2 :
  (∀ u, succeeds c u w1 = succeeds c u w2) →
  (status_of <$> (handle_item c r w1).1)
  = (status_of <$> (handle_item c r w2).1).
Proof.
  intros Hst.
  destruct (r !! "type") as [ty|] eqn:Hty;
    [|by rewrite !handle_item_no_type].
  destruct (eq_str ty "pdf") eqn:Hpdf.
  { rewrite !handle_item_pdf by (unfold is_pdf; by rewrite Hty). done. }
  apply eq_str_false in Hpdf.
  destruct (eq_str ty "video") eqn:Hvideo;
    [apply eq_str_spec in Hvideo as ->
    |apply eq_str_false in Hvideo;
     by rewrite !(handle_item_unknown_type r _ ty)].
  destruct (r !! "url") as [v|] eqn:Hurl;
    [|by rewrite !handle_item_no_url].
  destruct (decide (type_name v = "str")) as [Hstr|Hstr];
    [|by rewrite !(handle_item_bad_url r _ v)].
  destruct v as [| | | |u| |]; try done.
  rewrite !(handle_item_video c r u) by done.
  specialize (Hst u). unfold succeeds in Hst.
  destruct (upload_youtube_audio_with_chapters c u "audio/" w1)
    as [[res1|e1] w1'];
    destruct (upload_youtube_audio_with_chapters c u "audio/" w2)
      as [[res2|e2] w2'];
    simpl in *; try done.
  - unfold status_of, success_record, update. simpl.
    by rewrite !lookup_insert_eq.
  - unfold status_of. by rewrite !(proj1 (failed_record_status _ _)).
Qed.

Lemma upload_result_shape video_url key_prefix w res w' :
  upload_youtube_audio_with_chapters c video_url key_prefix w
  = (Return res, w') →
  ∃ info w1 ext,
    ydl_extract_info c video_url w = (Return info, w1) ∧
    res.1 = key_prefix +:+ last_piece (split video_url "v=") +:+ "." +:+ ext ∧
    res.2 = match default [] (info_chapters info) with
            | [] => None
            | _ :: _ => Some (key_prefix +:+ last_piece (split video_url "v=")
                              +:+ "_chapters.json")
            end.
Proof.
  unfold upload_youtube_audio_with_chapters, with_tmp_dir, raise.
  unfold mbind, io_bind, mret, io_ret.
  destruct (ydl_extract_info c video_url w) as [[info|?] w1]; [|done].
  destruct (tmp_enter c w1) as [[tmp_dir|?] w2]; [|done].
  destruct (yt_dlp_run c tmp_dir video_url w2) as [[[]|?] w3]; [|done].
  destruct (glob_dir c tmp_dir w3) as [[[|local_file files]|?] w4];
    [done| |done].
  destruct (s3_upload_file c local_file _ w4) as [[[]|?] w5]; [|done].
  destruct (default [] (info_chapters info)) as [|ch chs] eqn:Hch.
  - simpl. intros [= <- _]. exists info, w1. eexists.
    split; [done|]. split; [reflexivity|by rewrite Hch].
  - destruct (s3_put_chapters c _ _ w5) as [[[]|?] w6]; [|done].
    simpl. intros [= <- _]. exists info, w1. eexists.
    split; [done|]. split; [reflexivity|by rewrite Hch].
Qed.
End Run.

Section Records.
Context {W : Type} (c : collaborators W).
Local Arguments update : simpl never.

(** X14. The record of a Resource that carries none of the outcome keys
    has a status that is one of success, failed and skipped; it has a
    reason exactly when the status is not success, and it has an
    [s3_key], a [chapters_key] and an [uploaded_at] exactly when the
    status is success. *)
Theorem record_fields_by_status r w e :
  (handle_item c r w).1 = Some e →
  dom r ## outcome_keys →
  ∃ s, e !! "status" = Some (VStr s) ∧
       s ∈ ["success"; "failed"; "skipped"] ∧
       (is_Some (e !! "reason") ↔ s ≠ "success") ∧
       (is_Some (e !! "s3_key") ↔ s = "success") ∧
       (is_Some (e !! "chapters_key") ↔ s = "success") ∧
       (is_Some (e !! "uploaded_at") ↔ s = "success").
Proof.
  intros He Hdisj.
  pose proof (handle_item_record c r w e He) as Hrec.
  assert (∀ k, k ∈ outcome_keys → r !! k = None) as Hnone.
  { intros k Hk. apply not_elem_of_dom. intros Hin. by apply (Hdisj k). }
  assert (r !! "status" = None ∧ r !! "reason" = None ∧ r !! "s3_key" = None ∧
          r !! "chapters_key" = None ∧ r !! "uploaded_at" = None)
    as (H1 & H2 & H3 & H4 & H5).
  { repeat split; apply Hnone; unfold outcome_keys; set_solver. }
  destruct Hrec as [res now|reason|]; unfold success_record, update; simpl.
  - exists "success".
    rewrite lookup_insert_eq.
    rewrite !(lookup_insert_ne _ "status") by done.
    rewrite lookup_insert_eq.
    rewrite !(lookup_insert_ne _ "uploaded_at") by done.
    rewrite lookup_insert_eq.
    rewrite !(lookup_insert_ne _ "chapters_key") by done.
    rewrite lookup_insert_eq.
    rewrite !(lookup_insert_ne _ "s3_key") by done. rewrite H2.
    split; [done|]. split; [set_solver|].
    split; [split; [by intros [? ?]|done]|].
    repeat split; eauto.
  - exists "failed".
    rewrite lookup_insert_eq.
    rewrite !(lookup_insert_ne _ "reason") by done.
    rewrite lookup_insert_eq.
    rewrite !(lookup_insert_ne _ "status") by done. rewrite H3, H4, H5.
    split; [done|]. split; [set_solver|].
    split; [split; [done|eauto]|].
    repeat split; (by intros [? ?]) || done.
  - exists "skipped".
    rewrite lookup_insert_eq.
    rewrite !(lookup_insert_ne _ "reason") by done.
    rewrite lookup_insert_eq.
    rewrite !(lookup_insert_ne _ "status") by done. rewrite H3, H4, H5.
    split; [done|]. split; [set_solver|].
    split; [split; [done|eauto]|].
    repeat split; (by intros [? ?]) || done.
Qed.

(** X15. A malformed Resource never stops the run and is never handed
    to the downloader: without a [type] the record is failed with the
    [KeyError] of [type]; a video without a [url] is failed with the
    [KeyError] of [url]; a video whose [url] is not a string is failed
    with the [AttributeError] of [split]; a [type] other than pdf and
    video is skipped as unknown type. In each case the world is left as
    it was. *)
Theorem malformed_resources_fail_in_place r w :
  (r !! "type" = None →
   handle_item c r w = (Some (failed_record r (KeyError "type")), w)) ∧
  (r !! "type" = Some (VStr "video") → r !! "url" = None →
   handle_item c r w = (Some (failed_record r (KeyError "url")), w)) ∧
  (∀ v, r !! "type" = Some (VStr "video") → r !! "url" = Some v →
        type_name v ≠ "str" →
   handle_item c r w = (Some (failed_record r (AttributeError v "split")), w)) ∧
  (∀ ty, r !! "type" = Some ty → ty ≠ VStr "pdf" → ty ≠ VStr "video" →
   handle_item c r w =
   (Some (update r [("status", VStr "skipped"); ("reason", VStr "unknown type")]),
    w)).
Proof.
  split; [apply handle_item_no_type|]. split; [apply handle_item_no_url|].
  split; [intros v; apply handle_item_bad_url|].
  intros ty. apply handle_item_unknown_type.
Qed.

(** X16. A run of the ingestion raises only while loading the manifest or
    while writing the job metadata, and then it raises what that step
    raised: no exception of the item loop leaves the run. *)
Theorem run_ingestion_raises_only_at_the_ends discovery_file w e w' :
  run_ingestion c discovery_file w = (Raise e, w') →
  let id := uuid4 c w in
  let ts := utcnow_iso c id.2 in
  (load_discovery c discovery_file ts.2).1 = Raise e ∨
  ∃ resources w3 job,
    load_discovery c discovery_file ts.2 = (Return resources, w3) ∧
    job_of c id.1 ts.1 resources w3 = Return job ∧
    (s3_put_metadata c ("metadata/ingestion/ingestion_" +:+ ts.1 +:+ ".json")
       job (utcnow_iso c (process_resources c resources [] w3).2).2).1
    = Raise e.
Proof.
  intros Hrun id ts.
  destruct (load_discovery c discovery_file ts.2) as [[resources|e0] w3] eqn:Hload.
  - right. destruct (run_ingestion_job c discovery_file w resources w3 Hload)
      as (job & Hjob & Heq).
    exists resources, w3, job. split; [done|]. split; [done|].
    fold id ts in Heq. rewrite Heq in Hrun.
    destruct (s3_put_metadata c _ job _) as [[[]|e1] w5]; simpl; congruence.
  - left. simpl. unfold run_ingestion, total, lift, mbind, io_bind in Hrun.
    fold id ts in Hrun. rewrite Hload in Hrun. congruence.
Qed.

(** X17. When whether a video can be acquired does not depend on the
    state of the world, the statuses of the records do not depend on it
    either: two runs over the same manifest give the same list of
    statuses. *)
Theorem statuses_do_not_depend_on_world resources w1 w2 :
  (∀ u w w', succeeds c u w = succeeds c u w') →
  status_of <$> (process_resources c resources [] w1).1 =
  status_of <$> (process_resources c resources [] w2).1.
Proof.
  intros Hst. revert w1 w2.
  induction resources as [|r resources IH]; intros w1 w2; [done|].
  rewrite !process_resources_step.
  rewrite (process_resources_acc c resources _ (handle_item c r w1).2).
  rewrite (process_resources_acc c resources _ (handle_item c r w2).2).
  rewrite !fmap_app.
  rewrite (IH (handle_item c r w1).2 (handle_item c r w2).2). f_equal.
  pose proof (handle_item_status_stable c r w1 w2 (λ u, Hst u w1 w2)) as Hh.
  destruct (handle_item c r w1).1, (handle_item c r w2).1; simpl in *;
    [injection Hh as Hh; by rewrite Hh|done..].
Qed.

(** X18. The job always has its counts: every record is counted once
    among success, failed and skipped, and [num_total] is the number of
    records plus the number of pdf Resources of the manifest. *)
Theorem job_accounting job_id timestamp resources w :
  ∃ job,
    job_of c job_id timestamp resources w = Return job ∧
    num_success job + num_failed job + status_count "skipped" (job_resources job)
    = length (job_resources job) ∧
    length (job_resources job) + length (filter (λ r, is_pdf r = true) resources)
    = num_total job.
Proof.
  rewrite job_of_returns. eexists. split; [done|]. simpl.
  destruct (process_resources_records c resources [] w) as (new & -> & Hall).
  simpl. split.
  - clear -Hall. induction Hall as [|r e rs es Hrec _ IH]; [done|].
    rewrite !status_count_cons. pose proof (record_of_one_status r e Hrec).
    simpl length. lia.
  - rewrite <- (Forall2_length _ _ _ Hall). apply filter_split_length.
Qed.

(** X19. A video Resource built by the discovery job, whose video id has
    no [=] in it, is stored under keys made of that id: on success the
    [s3_key] is [audio/<id>.<ext>] and the [chapters_key] is [None] or
    [audio/<id>_chapters.json]. *)
Theorem video_artifacts_keyed_by_id item playlist_title handle now w e :
  contains "=" (it_videoId item) = false →
  (handle_item c (video_resource item playlist_title handle now) w).1 = Some e →
  e !! "status" = Some (VStr "success") →
  ∃ ext,
    e !! "s3_key" = Some (VStr ("audio/" +:+ it_videoId item +:+ "." +:+ ext)) ∧
    (e !! "chapters_key" = Some VNone ∨
     e !! "chapters_key"
     = Some (VStr ("audio/" +:+ it_videoId item +:+ "_chapters.json"))).
Proof.
  intros Hno.
  rewrite (handle_item_video c _ ("https://www.youtube.com/watch?v=" +:+ it_videoId item))
    by done.
  destruct (upload_youtube_audio_with_chapters c _ "audio/" w) as [[res|ex] w1] eqn:Hup;
    simpl.
  - intros [= <-] _.
    apply upload_result_shape in Hup as (info & w0 & ext & _ & H1 & H2).
    rewrite video_id_round_trip in H1, H2 by done.
    exists ext. unfold success_record, update. simpl. rewrite H1, H2.
    split.
    + by rewrite !(lookup_insert_ne _ _ "s3_key"), lookup_insert_eq by done.
    + rewrite !(lookup_insert_ne _ _ "chapters_key"), lookup_insert_eq by done.
      destruct (default [] (info_chapters info)); [by left|by right].
  - intros [= <-] Hst. by rewrite (proj1 (failed_record_status _ _)) in Hst.
Qed.

(** X20. On a manifest made of Resources as the discovery job builds
    them, the ingestion skips nothing as unknown: the records are those of
    the video Resources, in order, each keeping every field of its
    Resource and having status success or failed. *)
Theorem discovered_manifest_ingestion resources w :
  Forall discovered resources →
  let records := (process_resources c resources [] w).1 in
  status_count "skipped" records = 0 ∧
  Forall2 (λ r e, (∀ k v, r !! k = Some v → e !! k = Some v) ∧
                  (e !! "status" = Some (VStr "success") ∨
                   e !! "status" = Some (VStr "failed")))
          (filter (λ r, is_video_type r = true) resources) records.
Proof.
  intros Hall. revert w. induction Hall as [|r resources Hr _ IH]; intros w.
  { split; [done|constructor]. }
  cbn zeta. rewrite process_resources_step, process_resources_acc.
  destruct (IH (handle_item c r w).2) as [IH1 IH2]. clear IH.
  destruct Hr as [course href text url now|item title handle now].
  - rewrite handle_item_pdf by done. simpl.
    rewrite filter_cons_False by done. done.
  - rewrite filter_cons_True by done.
    set (r := video_resource item title handle now) in *.
    assert (dom r ## outcome_keys) as Hdisj.
    { intros k Hk Hout. apply elem_of_dom in Hk as [v Hv].
      unfold outcome_keys in Hout.
      rewrite !elem_of_union, !elem_of_singleton in Hout.
      destruct Hout as [[[[-> | ->] | ->] | ->] | ->]; done. }
    rewrite (handle_item_video c r ("https://www.youtube.com/watch?v=" +:+ it_videoId item))
      in * by done.
    destruct (upload_youtube_audio_with_chapters c _ "audio/" w) as [[res|ex] w1];
      simpl in *.
    + rewrite status_count_cons, IH1.
      split; [by rewrite (proj2 (success_record_skipped _ _ _))|].
      constructor; [|done]. split.
      * apply map_subseteq_spec, record_of_subseteq; [constructor|done].
      * left. unfold success_record, update. simpl. by rewrite lookup_insert_eq.
    + rewrite status_count_cons, IH1. split.
      * unfold status_is. by rewrite (proj1 (failed_record_status _ _)).
      * constructor; [|done]. split.
        -- apply map_subseteq_spec, record_of_subseteq; [constructor|done].
        -- right. apply failed_record_status.
Qed.
End Records.

(** The record of the video that cannot be extracted. *)
Lemma record_fields_by_status_witness :
  ∃ e, (handle_item (studio (third_fails download_error)) (video "v3") []).1
       = Some e ∧
    ∃ s, e !! "status" = Some (VStr s) ∧
         s ∈ ["success"; "failed"; "skipped"] ∧
         (is_Some (e !! "reason") ↔ s ≠ "success") ∧
         (is_Some (e !! "s3_key") ↔ s = "success") ∧
         (is_Some (e !! "chapters_key") ↔ s = "success") ∧
         (is_Some (e !! "uploaded_at") ↔ s = "success").
Proof.
  eexists. split; [reflexivity|].
  apply (record_fields_by_status (studio (third_fails download_error))
           (video "v3") []); [reflexivity|].
  apply (bool_decide_unpack _). vm_compute. exact I.
Defined.

(** The manifest cannot be read: the run raises what the loading raised. *)
Lemma run_ingestion_raises_only_at_the_ends_witness :
  let c := studio_without_manifest in
  let e := mkException "FileNotFoundError" "discovered.json" in
  run_ingestion c "discovered.json" [] = (Raise e, []) ∧
  ((load_discovery c "discovered.json" (utcnow_iso c (uuid4 c []).2).2).1
   = Raise e ∨
   ∃ resources w3 job,
     load_discovery c "discovered.json" (utcnow_iso c (uuid4 c []).2).2
     = (Return resources, w3) ∧
     job_of c (uuid4 c []).1 (utcnow_iso c (uuid4 c []).2).1 resources w3
     = Return job ∧
     (s3_put_metadata c
        ("metadata/ingestion/ingestion_" +:+
         (utcnow_iso c (uuid4 c []).2).1 +:+ ".json")
        job (utcnow_iso c (process_resources c resources [] w3).2).2).1
     = Raise e).
Proof.
  intros c e. split; [reflexivity|].
  exact (run_ingestion_raises_only_at_the_ends c "discovered.json" [] e []
           eq_refl).
Defined.

(** The studio fails on the third video whatever the store holds. *)
Lemma statuses_do_not_depend_on_world_witness :
  let c := studio (third_fails download_error) in
  status_of <$> (process_resources c five_videos [] []).1 =
  status_of <$> (process_resources c five_videos [] ["audio/v0.m4a"]).1.
Proof.
  intros c. apply (statuses_do_not_depend_on_world c five_videos).
  intros u w w'. unfold succeeds, upload_youtube_audio_with_chapters.
  unfold mbind, io_bind. simpl.
  destruct (third_fails download_error u); reflexivity.
Defined.

(** The first lecture of the channel. *)
Lemma video_artifacts_keyed_by_id_witness :
  ∃ e,
    (handle_item (studio (λ _, None))
       (video_resource lecture_item "Lecture Videos" "@mitocw"
          "2025-09-24T20:20:15") []).1 = Some e ∧
    ∃ ext,
      e !! "s3_key" = Some (VStr ("audio/" +:+ "v1" +:+ "." +:+ ext)) ∧
      (e !! "chapters_key" = Some VNone ∨
       e !! "chapters_key" = Some (VStr ("audio/" +:+ "v1" +:+ "_chapters.json"))).
Proof.
  eexists. split; [reflexivity|].
  apply (video_artifacts_keyed_by_id (studio (λ _, None)) lecture_item
           "Lecture Videos" "@mitocw" "2025-09-24T20:20:15" []);
    reflexivity.
Defined.

(** A manifest of one document and one video. *)
Lemma discovered_manifest_ingestion_witness :
  let resources :=
    [ pdf_resource "c" "/courses/c/a.pdf" "Lecture notes"
        "https://ocw.mit.edu/courses/c/" "2025-09-24T20:20:15";
      video_resource lecture_item "Lecture Videos" "@mitocw"
        "2025-09-24T20:20:15" ] in
  let records := (process_resources (studio (λ _, None)) resources [] []).1 in
  status_count "skipped" records = 0 ∧
  Forall2 (λ r e, (∀ k v, r !! k = Some v → e !! k = Some v) ∧
                  (e !! "status" = Some (VStr "success") ∨
                   e !! "status" = Some (VStr "failed")))
          (filter (λ r, is_video_type r = true) resources) records.
Proof.
  intros resources.
  apply (discovered_manifest_ingestion (studio (λ _, None)) resources []).
  apply Forall_cons_2; [apply discovered_pdf|].
  apply Forall_cons_2; [apply discovered_video|apply Forall_nil_2].
Defined.
End IngestMore.
